(** * The Jest TypeScript transform of react-scripts

    Shallow embedding of
    [packages/react-scripts/config/jest/typescriptTransform.js]:
    the module initialisation that chooses the compiler configuration, and
    the two exported entry points [process] and [getCacheKey].

    Layout: the MD5 digest used by the cache key (module [MD5]), hexadecimal
    output, the JavaScript values the transform handles, [JSON.stringify],
    the store and the state/exception monad, the transform itself, and then
    the properties. *)

From Stdlib Require Import ZArith Lia.
From Stdlib.Strings Require Import Ascii String Byte.
From Stdlib Require Import DecimalString DecimalNat.
From stdpp Require Import base list strings.

Set Warnings "-register-all".
Local Open Scope Z_scope.

(** ** MD5 (RFC 1321), the algorithm behind [crypto.createHash('md5')]

    Words are 32-bit integers kept in [Z] with the wrap-around written out.
    The digest is computed the way the hash object of the crypto library
    does: bytes are fed one at a time into a 64-byte block, and each full
    block is folded into the four chaining words. *)
Module MD5.

Definition word := Z.

Definition wrap (x : Z) : word := x mod 2 ^ 32.

Definition add32 (a b : word) : word := wrap (a + b).

Definition not32 (a : word) : word := Z.lxor a 0xffffffff.

Definition rotl32 (x : word) (n : Z) : word :=
  Z.lor (wrap (Z.shiftl x n)) (Z.shiftr x (32 - n)).

(** The sine table T[1..64] of RFC 1321, section 3.4. *)
Definition K : list word :=
  [ 0xd76aa478; 0xe8c7b756; 0x242070db; 0xc1bdceee;
    0xf57c0faf; 0x4787c62a; 0xa8304613; 0xfd469501;
    0x698098d8; 0x8b44f7af; 0xffff5bb1; 0x895cd7be;
    0x6b901122; 0xfd987193; 0xa679438e; 0x49b40821;
    0xf61e2562; 0xc040b340; 0x265e5a51; 0xe9b6c7aa;
    0xd62f105d; 0x02441453; 0xd8a1e681; 0xe7d3fbc8;
    0x21e1cde6; 0xc33707d6; 0xf4d50d87; 0x455a14ed;
    0xa9e3e905; 0xfcefa3f8; 0x676f02d9; 0x8d2a4c8a;
    0xfffa3942; 0x8771f681; 0x6d9d6122; 0xfde5380c;
    0xa4beea44; 0x4bdecfa9; 0xf6bb4b60; 0xbebfbc70;
    0x289b7ec6; 0xeaa127fa; 0xd4ef3085; 0x04881d05;
    0xd9d4d039; 0xe6db99e5; 0x1fa27cf8; 0xc4ac5665;
    0xf4292244; 0x432aff97; 0xab9423a7; 0xfc93a039;
    0x655b59c3; 0x8f0ccc92; 0xffeff47d; 0x85845dd1;
    0x6fa87e4f; 0xfe2ce6e0; 0xa3014314; 0x4e0811a1;
    0xf7537e82; 0xbd3af235; 0x2ad7d2bb; 0xeb86d391 ].

(** Per-round rotation amounts. *)
Definition S : list Z :=
  [ 7; 12; 17; 22; 7; 12; 17; 22; 7; 12; 17; 22; 7; 12; 17; 22;
    5;  9; 14; 20; 5;  9; 14; 20; 5;  9; 14; 20; 5;  9; 14; 20;
    4; 11; 16; 23; 4; 11; 16; 23; 4; 11; 16; 23; 4; 11; 16; 23;
    6; 10; 15; 21; 6; 10; 15; 21; 6; 10; 15; 21; 6; 10; 15; 21 ].

Record chain := Chain { cA : word; cB : word; cC : word; cD : word }.

Definition IV : chain :=
  Chain 0x67452301 0xefcdab89 0x98badcfe 0x10325476.

Definition byteZ (b : byte) : Z := Z.of_N (Byte.to_N b).

(** Little-endian decoding of the sixteen words of a block. *)
Fixpoint words_of (bs : list byte) : list word :=
  match bs with
  | b0 :: b1 :: b2 :: b3 :: rest =>
      (byteZ b0 + 2 ^ 8 * byteZ b1 + 2 ^ 16 * byteZ b2 + 2 ^ 24 * byteZ b3)
        :: words_of rest
  | _ => []
  end.

(** One of the 64 operations: the auxiliary function and the message
    word index depend on the round. *)
Definition step (M : list word) (c : chain) (i : nat) : chain :=
  let '(Chain a b c0 d) := c in
  let iz := Z.of_nat i in
  let '(f, g) :=
    if iz <? 16 then (Z.lor (Z.land b c0) (Z.land (not32 b) d), iz)
    else if iz <? 32 then
      (Z.lor (Z.land d b) (Z.land (not32 d) c0), (5 * iz + 1) mod 16)
    else if iz <? 48 then (Z.lxor b (Z.lxor c0 d), (3 * iz + 5) mod 16)
    else (Z.lxor c0 (Z.lor b (not32 d)), (7 * iz) mod 16) in
  let sum := add32 (add32 (add32 f a) (nth i K 0)) (nth (Z.to_nat g) M 0) in
  Chain d (add32 b (rotl32 sum (nth i S 0))) b c0.

(** The compression function: 64 operations, then the feed-forward. *)
Definition compress (c : chain) (block : list byte) : chain :=
  let r := fold_left (step (words_of block)) (seq 0 64) c in
  Chain (add32 (cA c) (cA r)) (add32 (cB c) (cB r))
        (add32 (cC c) (cC r)) (add32 (cD c) (cD r)).

(** Feeding bytes: [blk] is the partial block carried between calls. *)
Fixpoint feed (c : chain) (blk : list byte) (data : list byte)
  : chain * list byte :=
  match data with
  | [] => (c, blk)
  | b :: rest =>
      let blk' := blk ++ [b] in
      if (length blk' =? 64)%nat then feed (compress c blk') [] rest
      else feed c blk' rest
  end.

Definition byte_of_Z (z : Z) : byte :=
  match Byte.of_N (Z.to_N (z mod 256)) with
  | Some b => b
  | None => x00
  end.

(** The 64-bit little-endian bit count that closes the padding. *)
Definition length_bytes (nbytes : nat) : list byte :=
  let bits := (8 * Z.of_nat nbytes) mod 2 ^ 64 in
  map (fun k => byte_of_Z (Z.shiftr bits (8 * Z.of_nat k))) (seq 0 8).

(** Padding for a message of [nbytes] bytes: a one bit, zero bits up to
    56 modulo 64, and the length. *)
Definition padding (nbytes : nat) : list byte :=
  x80 :: repeat x00 (Z.to_nat ((55 - Z.of_nat nbytes) mod 64))
      ++ length_bytes nbytes.

Definition word_bytes (w : word) : list Z :=
  [ w mod 256; Z.shiftr w 8 mod 256;
    Z.shiftr w 16 mod 256; Z.shiftr w 24 mod 256 ].

Definition encode (c : chain) : list Z :=
  word_bytes (cA c) ++ word_bytes (cB c)
    ++ word_bytes (cC c) ++ word_bytes (cD c).

(** The digest of a whole message. *)
Definition md5 (msg : list byte) : list Z :=
  encode (fst (feed IV [] (msg ++ padding (length msg)))).

(** *** The hash object

    [createHash] makes it, [update] feeds it, [digest] closes it. *)
Record Hash := mkHash {
  state : chain;        (* chaining words after the full blocks so far *)
  pending : list byte;  (* bytes of the block under construction *)
  total : nat           (* number of bytes fed so far *)
}.

Definition createHash : Hash := mkHash IV [] 0.

Definition update (h : Hash) (data : list byte) : Hash :=
  let '(c, blk) := feed (state h) (pending h) data in
  mkHash c blk (total h + length data).

Definition digest (h : Hash) : list Z :=
  encode (fst (feed (state h) (pending h) (padding (total h)))).

(** [h] has been fed exactly the message [m]. *)
Definition absorbed (h : Hash) (m : list byte) : Prop :=
  feed IV [] m = (state h, pending h) /\ total h = length m.

End MD5.

(** ** Hexadecimal output, [digest('hex')] *)

Definition hex_digit (d : Z) : ascii :=
  match String.get (Z.to_nat d) "0123456789abcdef" with
  | Some c => c
  | None => "0"%char
  end.

Fixpoint hex (bs : list Z) : string :=
  match bs with
  | [] => EmptyString
  | b :: rest => String (hex_digit (b / 16)) (String (hex_digit (b mod 16)) (hex rest))
  end.

(** Reading a hexadecimal digit back. *)
Definition unhex_digit (c : ascii) : Z :=
  let n := Z.of_nat (nat_of_ascii c) in
  if n <? 58 then n - 48 else n - 87.

Definition utf8 (s : string) : list byte := list_byte_of_string s.


(** ** JavaScript values

    The values the transform meets are those a JSON file can hold, plus
    [undefined], which is what reading a missing property gives and is
    rendered as [None] in an [option value].  Strings stand for their UTF-8
    bytes.  A number is a [VNum] when it is a safe integer (below 2^53 in
    absolute value; zero and minus zero are both [VNum 0]), and a
    [VNumOther] otherwise, which carries the text [JSON.stringify] prints
    for it ([1e+21], [1.5], [null] for an infinity); see [safe_integers].
    An object is the list of its own enumerable properties in enumeration
    order; prototypes are not part of the model. *)

Inductive value : Type :=
| VNull
| VBool (b : bool)
| VNum (n : Z)
| VNumOther (json : string)
| VStr (s : string)
| VArr (elems : list value)
| VObj (props : list (string * value)).

Abbreviation props := (list (string * value)).

(** [ToBoolean]: the test of an [if], of [&&] and of [? :]. *)
Definition ToBoolean (v : value) : bool :=
  match v with
  | VNull => false
  | VBool b => b
  | VNum n => negb (n =? 0)
  | VNumOther _ => true
  | VStr EmptyString => false
  | VStr _ => true
  | VArr _ | VObj _ => true
  end.

Definition truthy (o : option value) : bool :=
  match o with
  | Some v => ToBoolean v
  | None => false
  end.

(** Own properties: read, write (in place when the key exists, appended
    otherwise) and [delete]. *)
Fixpoint lookup_prop (k : string) (ps : props) : option value :=
  match ps with
  | [] => None
  | (k', v) :: rest => if String.eqb k k' then Some v else lookup_prop k rest
  end.

Fixpoint set_prop (k : string) (v : value) (ps : props) : props :=
  match ps with
  | [] => [(k, v)]
  | (k', v') :: rest =>
      if String.eqb k k' then (k, v) :: rest else (k', v') :: set_prop k v rest
  end.

Fixpoint delete_prop (k : string) (ps : props) : props :=
  match ps with
  | [] => []
  | (k', v') :: rest =>
      if String.eqb k k' then delete_prop k rest else (k', v') :: delete_prop k rest
  end.

(** [v.k] for a name [k] that no prototype defines and that is neither an
    index nor [length]; these are the only reads the transform makes
    ([compilerOptions] and [instrument]).  On [null] the read would throw;
    the transform guards that read with [tsconfig &&]. *)
Definition getProp (v : value) (k : string) : option value :=
  match v with
  | VObj ps => lookup_prop k ps
  | _ => None
  end.

Definition index_key (i : nat) : string :=
  NilEmpty.string_of_uint (Nat.to_uint i).

Fixpoint indexed {A} (f : A -> value) (i : nat) (l : list A) : props :=
  match l with
  | [] => []
  | x :: rest => (index_key i, f x) :: indexed f (S i) rest
  end.

(** The characters of a string as JavaScript indexes them, one UTF-16
    code unit each.  A character of one, two or three UTF-8 bytes is one
    code unit.  A character of four bytes is a pair of surrogates; each
    half is written in the three-byte form of its code. *)
Definition surrogate_bytes (code : N) : string :=
  String (ascii_of_N (224 + N.shiftr code 12))
    (String (ascii_of_N (128 + N.land (N.shiftr code 6) 63))
       (String (ascii_of_N (128 + N.land code 63)) EmptyString)).

Definition surrogate_pair (b0 b1 b2 b3 : ascii) : list string :=
  let point :=
    (N.shiftl (N.land (N_of_ascii b0) 7) 18
     + N.shiftl (N.land (N_of_ascii b1) 63) 12
     + N.shiftl (N.land (N_of_ascii b2) 63) 6
     + N.land (N_of_ascii b3) 63)%N in
  let offset := (point - 65536)%N in
  [ surrogate_bytes (55296 + N.shiftr offset 10);
    surrogate_bytes (56320 + N.land offset 1023) ].

Fixpoint code_units (s : string) : list string :=
  match s with
  | EmptyString => []
  | String b0 rest =>
      if (N_of_ascii b0 <? 192)%N then String b0 EmptyString :: code_units rest
      else
        match rest with
        | EmptyString => [String b0 EmptyString]
        | String b1 rest1 =>
            if (N_of_ascii b0 <? 224)%N
            then String b0 (String b1 EmptyString) :: code_units rest1
            else
              match rest1 with
              | EmptyString => [String b0 (String b1 EmptyString)]
              | String b2 rest2 =>
                  if (N_of_ascii b0 <? 240)%N
                  then String b0 (String b1 (String b2 EmptyString)) :: code_units rest2
                  else
                    match rest2 with
                    | EmptyString => [String b0 (String b1 (String b2 EmptyString))]
                    | String b3 rest3 => surrogate_pair b0 b1 b2 b3 ++ code_units rest3
                    end
              end
        end
  end.

(** The own enumerable properties [Object.assign] copies from a source:
    the properties of an object, the elements of an array, the characters
    of a string, nothing for the other primitives. *)
Definition ownEnumerable (v : value) : props :=
  match v with
  | VObj ps => ps
  | VArr es => indexed (fun e => e) 0 es
  | VStr s => indexed VStr 0 (code_units s)
  | _ => []
  end.

(** [Object.assign(target, source)] on the own properties of [target].
    Each property is written with an ordinary assignment, and assigning to
    [__proto__] reaches the prototype accessor instead of creating an own
    property. *)
Definition Object_assign (target : props) (source : value) : props :=
  fold_left
    (fun acc kv => if String.eqb (fst kv) "__proto__" then acc
                   else set_prop (fst kv) (snd kv) acc)
    (ownEnumerable source) target.

(** ** [JSON.stringify] *)

Definition quote : ascii := "034"%char.
Definition backslash : ascii := "092"%char.

Definition json_escape_char (c : ascii) : string :=
  let n := nat_of_ascii c in
  if (n =? 8)%nat then "\b"
  else if (n =? 9)%nat then "\t"
  else if (n =? 10)%nat then "\n"
  else if (n =? 12)%nat then "\f"
  else if (n =? 13)%nat then "\r"
  else if (n =? 34)%nat then String backslash (String quote EmptyString)
  else if (n =? 92)%nat then String backslash (String backslash EmptyString)
  else if (n <? 32)%nat then "\u00" +:+ hex [Z.of_nat n]
  else String c EmptyString.

Fixpoint json_escape (s : string) : string :=
  match s with
  | EmptyString => EmptyString
  | String c rest => json_escape_char c +:+ json_escape rest
  end.

Definition QuoteJSONString (s : string) : string :=
  String quote (json_escape s +:+ String quote EmptyString).

Fixpoint join (sep : string) (parts : list string) : string :=
  match parts with
  | [] => EmptyString
  | [p] => p
  | p :: rest => p +:+ sep +:+ join sep rest
  end.

Fixpoint JSON_stringify (v : value) : string :=
  match v with
  | VNull => "null"
  | VBool true => "true"
  | VBool false => "false"
  | VNum n => NilZero.string_of_int (Z.to_int n)
  | VNumOther json => json
  | VStr s => QuoteJSONString s
  | VArr es => "[" +:+ join "," (map JSON_stringify es) +:+ "]"
  | VObj ps =>
      "{" +:+ join ","
               (map (fun kv => QuoteJSONString (fst kv) +:+ ":" +:+ JSON_stringify (snd kv)) ps)
          +:+ "}"
  end.

(** The numbers of [v] are represented as the model asks: every [VNum]
    is a safe integer, the range in which a JavaScript number is an
    integer that [JSON.stringify] prints in plain decimal.  The value of
    every JSON text has such a representation. *)
Fixpoint safe_integers (v : value) : bool :=
  match v with
  | VNum n => Z.abs n <? 2 ^ 53
  | VArr es => forallb safe_integers es
  | VObj ps => forallb (fun kv => safe_integers (snd kv)) ps
  | _ => true
  end.

(** ** The TypeScript compiler interface

    The two enumeration members the default configuration names, and the
    argument and result of [tsc.transpileModule]. *)
Module tsc.

Module ModuleKind.
Definition CommonJS : Z := 1.
End ModuleKind.

Module JsxEmit.
Definition React : Z := 2.
End JsxEmit.

Record TranspileOptions := {
  compilerOptions : value;
  fileName : string
}.

Record TranspileOutput := {
  outputText : string;
  diagnostics : list string;
  sourceMapText : option string
}.

End tsc.

(** ** Exceptions, the store, and the monad of module code *)

Inductive exn : Type := Error (message : string).

Inductive result (A : Type) : Type :=
| Return (a : A)
| Throw (e : exn).
Arguments Return {A} a.
Arguments Throw {A} e.

Definition loc := nat.

(** What the module owns after it is loaded: the constant [THIS_FILE],
    the variable [compilerConfig] (a reference into the store), and the
    store of objects.  Primitive values are kept in cells as well: they are
    immutable, so sharing them is not observable. *)
Record ModuleState := {
  THIS_FILE : list byte;
  compilerConfig : loc;
  heap : list value
}.

Definition with_heap (st : ModuleState) (h : list value) : ModuleState :=
  {| THIS_FILE := THIS_FILE st; compilerConfig := compilerConfig st; heap := h |}.

Definition M (A : Type) : Type := ModuleState -> result A * ModuleState.

Definition ret {A} (a : A) : M A := fun st => (Return a, st).

Definition bind {A B} (m : M A) (k : A -> M B) : M B :=
  fun st =>
    match m st with
    | (Return a, st') => k a st'
    | (Throw e, st') => (Throw e, st')
    end.

Notation "'let!' x ':=' m 'in' k" := (bind m (fun x => k))
  (at level 10, x name, m at level 100, k at level 200, only parsing).

Definition lift {A} (r : result A) : M A := fun st => (r, st).

(** [try { body } catch (e) { handler }] *)
Definition try_catch {A} (body : M A) (handler : exn -> M A) : M A :=
  fun st =>
    match body st with
    | (Throw e, st') => handler e st'
    | r => r
    end.

(** Allocation of a fresh cell, as an object literal or a value returned
    by [require] gets one. *)
Definition alloc (v : value) : M loc :=
  fun st =>
    (Return (length (heap st)), with_heap st (heap st ++ [v])).

Definition deref (l : loc) : M value :=
  fun st =>
    match heap st !! l with
    | Some v => (Return v, st)
    | None => (Throw (Error "dangling reference"), st)
    end.

(** In-place change of the properties of the object in cell [l]. *)
Definition modify (l : loc) (f : props -> props) : M unit :=
  fun st =>
    match heap st !! l with
    | Some (VObj ps) =>
        (Return tt, with_heap st (<[l := VObj (f ps)]> (heap st)))
    | _ => (Throw (Error "TypeError: not an object"), st)
    end.

Definition read_compilerConfig : M loc := fun st => (Return (compilerConfig st), st).

Definition write_compilerConfig (l : loc) : M unit :=
  fun st =>
    (Return tt,
     {| THIS_FILE := THIS_FILE st; compilerConfig := l; heap := heap st |}).

Definition read_THIS_FILE : M (list byte) := fun st => (Return (THIS_FILE st), st).

(** ** Module initialisation (lines 5 to 26 of the source)

    The world the module is loaded in: the bytes of the transform's own
    file, and the project's [tsconfig.json], which is absent, or present
    with the outcome of [require] on it (the parsed value, or the exception
    of a failed read or parse). *)
Record World := {
  own_source : list byte;
  tsconfig_json : option (result value)
}.

Definition fs_readFileSync_filename (w : World) : list byte := own_source w.

Definition fs_existsSync_tsconfigPath (w : World) : bool :=
  match tsconfig_json w with
  | Some _ => true
  | None => false
  end.

Definition require_tsconfigPath (w : World) : M value :=
  lift match tsconfig_json w with
       | Some r => r
       | None => Throw (Error "Cannot find module")
       end.

Definition default_compilerConfig : value :=
  VObj [ ("module"%string, VNum tsc.ModuleKind.CommonJS);
         ("jsx"%string, VNum tsc.JsxEmit.React) ].

(** [const THIS_FILE = ...; let compilerConfig = { module: ..., jsx: ... };] *)
Definition module_init (w : World) : ModuleState :=
  {| THIS_FILE := fs_readFileSync_filename w;
     compilerConfig := 0%nat;
     heap := [default_compilerConfig] |}.

(** [if (fs.existsSync(tsconfigPath)) { try { ... } catch (e) { } }] *)
Definition module_body (w : World) : M unit :=
  if fs_existsSync_tsconfigPath w then
    try_catch
      (let! tsconfig := require_tsconfigPath w in
       if ToBoolean tsconfig && truthy (getProp tsconfig "compilerOptions") then
         match getProp tsconfig "compilerOptions" with
         | Some o => let! l := alloc o in write_compilerConfig l
         | None => ret tt
         end
       else ret tt)
      (fun e => ret tt)
  else ret tt.

Definition loadModule (w : World) : result unit * ModuleState :=
  module_body w (module_init w).

(** ** The exported functions *)

(** [String.prototype.endsWith] *)
Definition endsWith (s searchString : string) : bool :=
  let len := String.length s in
  let searchLength := String.length searchString in
  if (len <? searchLength)%nat then false
  else String.eqb (substring (len - searchLength) searchLength s) searchString.

Definition NUL : string := String "000"%char EmptyString.

(** [getCacheKey(fileData, filePath, configStr, options)] *)
Definition getCacheKey (fileData filePath configStr : string) (options : props)
  : M string :=
  let! this_file := read_THIS_FILE in
  let! l := read_compilerConfig in
  let! config := deref l in
  ret (hex (MD5.digest
    (MD5.update (MD5.update (MD5.update (MD5.update (MD5.update (MD5.update
    (MD5.update (MD5.update (MD5.update (MD5.update (MD5.update
       MD5.createHash
       this_file)
       (utf8 NUL))
       (utf8 fileData))
       (utf8 NUL))
       (utf8 filePath))
       (utf8 NUL))
       (utf8 configStr))
       (utf8 NUL))
       (utf8 (JSON_stringify config)))
       (utf8 NUL))
       (utf8 (if truthy (lookup_prop "instrument" options)
              then "instrument"%string else EmptyString))))).

Section Transform.

(** The compiler is the [typescript] package.  It is taken as a function
    of the source text and of the contents of the options object it is
    handed: it returns its output or throws, and leaves the options
    object as it found it. *)
Variable tsc_transpileModule :
  string -> tsc.TranspileOptions -> result tsc.TranspileOutput.

(** [process(src, path, config, options)] *)
Definition process (src path : string) (config : value) (options : props)
  : M string :=
  if endsWith path ".ts" || endsWith path ".tsx" then
    let! compilerOptions := read_compilerConfig in
    let! compilerOptions :=
      (if truthy (lookup_prop "instrument" options) then
         let! compilerOptions := alloc (VObj []) in
         let! source := (let! l := read_compilerConfig in deref l) in
         let! _ := modify compilerOptions (fun target => Object_assign target source) in
         let! _ := modify compilerOptions (delete_prop "sourceMap") in
         let! _ := modify compilerOptions (set_prop "inlineSourceMap" (VBool true)) in
         let! _ := modify compilerOptions (set_prop "inlineSources" (VBool true)) in
         ret compilerOptions
       else ret compilerOptions) in
    let! contents := deref compilerOptions in
    let! tsTranspiled :=
      lift (tsc_transpileModule src
              {| tsc.compilerOptions := contents; tsc.fileName := path |}) in
    ret (tsc.outputText tsTranspiled)
  else ret src.

(** A call of either export, and the state after a sequence of calls. *)
Inductive call : Type :=
| CallProcess (src path : string) (config : value) (options : props)
| CallGetCacheKey (fileData filePath configStr : string) (options : props).

Definition exec (c : call) : M string :=
  match c with
  | CallProcess src path config options => process src path config options
  | CallGetCacheKey fileData filePath configStr options =>
      getCacheKey fileData filePath configStr options
  end.

Definition run (calls : list call) (st : ModuleState) : ModuleState :=
  fold_left (fun st c => snd (exec c st)) calls st.

(** The module state in world [w] once the module is loaded and the given
    calls have been made, in order. *)
Definition state_after (w : World) (calls : list call) : ModuleState :=
  run calls (snd (loadModule w)).

End Transform.

(** The type of [tsc.transpileModule]. *)
Abbreviation compiler := (string -> tsc.TranspileOptions -> result tsc.TranspileOutput).

(** ** Vocabulary of the specification *)

(** The fields of a cache key are hashed with a null byte between
    consecutive fields. *)
Fixpoint join_nul (fields : list (list byte)) : list byte :=
  match fields with
  | [] => []
  | [f] => f
  | f :: rest => f ++ x00 :: join_nul rest
  end.

(** The marker for coverage runs. *)
Definition instrument_marker (instrument : bool) : string :=
  if instrument then "instrument" else EmptyString.

(** The message a cache key is the digest of. *)
Definition cache_key_message (this_file : list byte) (config : value)
    (fileData filePath configStr : string) (instrument : bool) : list byte :=
  join_nul [ this_file; utf8 fileData; utf8 filePath; utf8 configStr;
             utf8 (JSON_stringify config); utf8 (instrument_marker instrument) ].

(** [path] ends in [ext]. *)
Definition ends_with (path ext : string) : Prop :=
  exists stem : string, path = stem +:+ ext.

Definition is_typescript_path (path : string) : Prop :=
  ends_with path ".ts" \/ ends_with path ".tsx".

(** The value the variable [compilerConfig] refers to. *)
Definition current_config (st : ModuleState) : option value :=
  heap st !! compilerConfig st.

(** The process-wide configuration a world gives rise to: the
    [compilerOptions] of the project file when it is there, parses and
    holds a truthy [compilerOptions]; the built-in default otherwise. *)
Definition CompilerConfig (w : World) : value :=
  match tsconfig_json w with
  | Some (Return tsconfig) =>
      match getProp tsconfig "compilerOptions" with
      | Some o => if ToBoolean o then o else default_compilerConfig
      | None => default_compilerConfig
      end
  | _ => default_compilerConfig
  end.

(** The project file cannot supply a configuration: it is missing, it
    fails to load, or what it holds has no [compilerOptions]. *)
Definition no_project_config (w : World) : Prop :=
  tsconfig_json w = None
  \/ (exists e, tsconfig_json w = Some (Throw e))
  \/ (exists tsconfig, tsconfig_json w = Some (Return tsconfig)
                       /\ getProp tsconfig "compilerOptions" = None).

(** The effective configuration of a [process] call, as one expression:
    the configuration itself, or for a coverage run the copy with the
    three source-map options reset. *)
Definition effective_config (config : value) (instrument : bool) : value :=
  if instrument then
    VObj (set_prop "inlineSources" (VBool true)
            (set_prop "inlineSourceMap" (VBool true)
               (delete_prop "sourceMap" (Object_assign [] config))))
  else config.

(** The index a property name denotes, when it is the decimal numeral of
    one. *)
Definition index_of_key (k : string) : option nat :=
  match NilEmpty.uint_of_string k with
  | Some u => if String.eqb (index_key (Nat.of_uint u)) k
              then Some (Nat.of_uint u) else None
  | None => None
  end.

(** The own enumerable property [k] of a configuration: a property of an
    object, an element of an array, a code unit of a string; the other
    primitives have none. *)
Definition own_property (config : value) (k : string) : option value :=
  match config with
  | VObj ps => lookup_prop k ps
  | VArr es =>
      match index_of_key k with
      | Some i => es !! i
      | None => None
      end
  | VStr text =>
      match index_of_key k with
      | Some i => VStr <$> code_units text !! i
      | None => None
      end
  | _ => None
  end.

(** No two properties of an object configuration have the same name. *)
Definition distinct_names (config : value) : Prop :=
  match config with
  | VObj ps => List.NoDup (map fst ps)
  | _ => True
  end.

(** What the specification asks of the configuration of a coverage run:
    an object that has no [sourceMap], has both inline options set to
    [true], and agrees with the configuration on every other option. *)
Definition instrumented_clone_of (config effective : value) : Prop :=
  exists ps,
    effective = VObj ps
    /\ lookup_prop "sourceMap" ps = None
    /\ lookup_prop "inlineSourceMap" ps = Some (VBool true)
    /\ lookup_prop "inlineSources" ps = Some (VBool true)
    /\ forall k : string,
         k <> "sourceMap"%string -> k <> "inlineSourceMap"%string ->
         k <> "inlineSources"%string -> k <> "__proto__"%string ->
         lookup_prop k ps = own_property config k.

(** The outcome of [process] on a TypeScript file, given the outcome of
    the compiler. *)
Definition output_of (r : result tsc.TranspileOutput) : result string :=
  match r with
  | Return out => Return (tsc.outputText out)
  | Throw e => Throw e
  end.

(** Bytes, as the digest holds them. *)
Definition is_byte (b : Z) : Prop := 0 <= b < 256.

(** No null byte in a string. *)
Definition nul_free (s : string) : Prop := ~ In x00 (utf8 s).

(** The three text arguments of a key as they are hashed, one after the
    other with a null byte between them. *)
Definition joined_arguments (fileData filePath configStr : string) : list byte :=
  join_nul [utf8 fileData; utf8 filePath; utf8 configStr].

(** At most one of the three text arguments differs between two calls. *)
Definition at_most_one_text_differs (f1 p1 c1 f2 p2 c2 : string) : Prop :=
  (p1 = p2 /\ c1 = c2) \/ (f1 = f2 /\ c1 = c2) \/ (f1 = f2 /\ p1 = p2).

(** Files whose only difference lies after a null byte. *)
Definition fileData_ac : string := "a" +:+ NUL +:+ "c".

(** Two values of a field cannot be confused with a neighbouring field:
    they are the same, or neither holds a null byte. *)
Definition separable (a b : string) : Prop :=
  a = b \/ (nul_free a /\ nul_free b).

(** A file and a path that share a cache key with another pair. *)
Definition fileData_ab : string := "a" +:+ NUL +:+ "b".
Definition filePath_bc : string := "b" +:+ NUL +:+ "c".

(** A family of pairwise different file contents: [n] letters. *)
Fixpoint letters (n : nat) : string :=
  match n with
  | O => EmptyString
  | S n' => String "a"%char (letters n')
  end.

(** A digest read as one little-endian number. *)
Definition digest_number (bs : list Z) : Z :=
  fold_right (fun b acc => b + 256 * acc) 0 bs.

(** ** Sample data for the examples *)

Definition sample_source : list byte := utf8 "'use strict';".

Definition sample_tsconfig : value :=
  VObj [ ("compilerOptions"%string,
          VObj [ ("sourceMap"%string, VBool true);
                 ("target"%string, VStr "es5") ]) ].

Definition sample_world : World :=
  {| own_source := sample_source;
     tsconfig_json := Some (Return sample_tsconfig) |}.

Definition bare_world : World :=
  {| own_source := sample_source; tsconfig_json := None |}.

Definition broken_world : World :=
  {| own_source := sample_source;
     tsconfig_json := Some (Throw (Error "SyntaxError: Unexpected token")) |}.

Definition sample_state : ModuleState := snd (loadModule sample_world).

(** A stand-in compiler for the examples: it rejects the empty text and
    otherwise answers with the options it was given followed by the
    source. *)
Definition sample_compiler (src : string) (o : tsc.TranspileOptions)
  : result tsc.TranspileOutput :=
  match src with
  | EmptyString => Throw (Error "Declaration or statement expected")
  | _ => Return {| tsc.outputText := JSON_stringify (tsc.compilerOptions o) +:+ src;
                   tsc.diagnostics := [];
                   tsc.sourceMapText := None |}
  end.

(** A second stand-in, which does as the compiler's transpile mode does
    with a syntax error: it returns an output text all the same and
    records the error among the diagnostics of the result. *)
Definition reporting_compiler (src : string) (o : tsc.TranspileOptions)
  : result tsc.TranspileOutput :=
  Return {| tsc.outputText := src;
            tsc.diagnostics :=
              if String.eqb src "const = ;"
              then ["Variable declaration expected."%string] else [];
            tsc.sourceMapText := None |}.

(** * The Storybook webpack configuration

    The second source file exports one function that rewrites the base
    configuration Storybook hands it.  It relies on three pieces of
    JavaScript that are modelled first: regular expressions, [split] and
    [filter(Boolean)]. *)

(** ** Regular expressions

    The constructs the source uses: characters, [.], sequence, [|], [*]
    (from which [+] and [?] derive), [^] and [$].  No flag is set anywhere,
    so [^] and [$] are the ends of the input.  A position is the rest of
    the input together with a flag that tells whether it is the start. *)

Inductive regex : Type :=
| Eps
| Chr (c : ascii)
| Any
| Seq (r1 r2 : regex)
| Alt (r1 r2 : regex)
| Star (r : regex)
| AtStart
| AtEnd.

Definition Plus (r : regex) : regex := Seq r (Star r).
Definition Opt (r : regex) : regex := Alt r Eps.

Fixpoint lit (s : string) : regex :=
  match s with
  | EmptyString => Eps
  | String c rest => Seq (Chr c) (lit rest)
  end.

Definition position : Type := bool * string.

(** [.] matches any character but a line terminator.  Of JavaScript's
    four, these are the two that are a single byte, line feed and
    carriage return; the separators U+2028 and U+2029, three bytes each
    here, are not told apart from other characters. *)
Definition is_line_terminator (c : ascii) : bool :=
  (nat_of_ascii c =? 10)%nat || (nat_of_ascii c =? 13)%nat.

(** The loop of [r*]: greedy, and an iteration that consumes nothing is
    rejected. *)
Fixpoint star_loop {A} (step : position -> (position -> option A) -> option A)
    (k : position -> option A) (fuel : nat) (p : position) : option A :=
  match fuel with
  | O => k p
  | S fuel' =>
      match step p (fun q =>
                      if (String.length (snd q) <? String.length (snd p))%nat
                      then star_loop step k fuel' q else None) with
      | Some x => Some x
      | None => k p
      end
  end.

(** The backtracking matcher: [k] is what remains to be matched after
    [r], alternatives are tried left to right. *)
Fixpoint matcher {A} (r : regex) (p : position) (k : position -> option A)
  : option A :=
  match r with
  | Eps => k p
  | Chr c =>
      match snd p with
      | String c' rest => if Ascii.eqb c c' then k (false, rest) else None
      | EmptyString => None
      end
  | Any =>
      match snd p with
      | String c' rest => if is_line_terminator c' then None else k (false, rest)
      | EmptyString => None
      end
  | Seq r1 r2 => matcher r1 p (fun q => matcher r2 q k)
  | Alt r1 r2 =>
      match matcher r1 p k with
      | Some x => Some x
      | None => matcher r2 p k
      end
  | Star r1 => star_loop (matcher r1) k (String.length (snd p)) p
  | AtStart => if fst p then k p else None
  | AtEnd =>
      match snd p with
      | EmptyString => k p
      | String _ _ => None
      end
  end.

(** The first match, scanning start positions from the left: what comes
    before it and what comes after it. *)
Fixpoint search (r : regex) (at_start : bool) (s : string)
  : option (string * string) :=
  match matcher r (at_start, s) (fun q => Some (snd q)) with
  | Some after => Some (EmptyString, after)
  | None =>
      match s with
      | EmptyString => None
      | String c rest =>
          match search r false rest with
          | Some (before, after) => Some (String c before, after)
          | None => None
          end
      end
  end.

(** [r.test(s)] *)
Definition RegExp_test (r : regex) (s : string) : bool :=
  match search r true s with
  | Some _ => true
  | None => false
  end.

(** [s.replace(r, replacement)] for a regular expression without the [g]
    flag and a replacement without [$] patterns. *)
Definition String_replace (s : string) (r : regex) (replacement : string) : string :=
  match search r true s with
  | Some (before, after) => before +:+ replacement +:+ after
  | None => s
  end.

(** What it means for [r] to match from one position to another. *)
Inductive Matches : regex -> position -> position -> Prop :=
| MEps p : Matches Eps p p
| MChr c b rest : Matches (Chr c) (b, String c rest) (false, rest)
| MAny c b rest :
    is_line_terminator c = false -> Matches Any (b, String c rest) (false, rest)
| MSeq r1 r2 p q p' :
    Matches r1 p q -> Matches r2 q p' -> Matches (Seq r1 r2) p p'
| MAltL r1 r2 p p' : Matches r1 p p' -> Matches (Alt r1 r2) p p'
| MAltR r1 r2 p p' : Matches r2 p p' -> Matches (Alt r1 r2) p p'
| MStarStop r p : Matches (Star r) p p
| MStarStep r p q p' :
    Matches r p q ->
    (String.length (snd q) < String.length (snd p))%nat ->
    Matches (Star r) q p' -> Matches (Star r) p p'
| MAtStart s : Matches AtStart (true, s) (true, s)
| MAtEnd b : Matches AtEnd (b, EmptyString) (b, EmptyString).

(** [s.split(separator)] for a separator of one character, and
    [filter(Boolean)] on strings. *)
Fixpoint String_split (separator : ascii) (s : string) : list string :=
  match s with
  | EmptyString => [EmptyString]
  | String c rest =>
      if Ascii.eqb c separator then EmptyString :: String_split separator rest
      else match String_split separator rest with
           | piece :: pieces => String c piece :: pieces
           | [] => [String c EmptyString]
           end
  end.

Definition filter_Boolean (l : list string) : list string :=
  List.filter (fun s => match s with EmptyString => false | _ => true end) l.

(** [s.startsWith(prefix)] *)
Fixpoint startsWith (s prefix : string) : bool :=
  match prefix, s with
  | EmptyString, _ => true
  | String a prefix', String b s' => Ascii.eqb a b && startsWith s' prefix'
  | String _ _, EmptyString => false
  end.

(** The start flag of the position reached after skipping [before]. *)
Definition flag_after (at_start : bool) (before : string) : bool :=
  match before with
  | EmptyString => at_start
  | String _ _ => false
  end.

(** A run of [n] slashes. *)
Fixpoint slashes (n : nat) : string :=
  match n with
  | O => EmptyString
  | S n' => String "/"%char (slashes n')
  end.

(** [c] occurs in [s]. *)
Fixpoint occurs (c : ascii) (s : string) : bool :=
  match s with
  | EmptyString => false
  | String c' rest => Ascii.eqb c c' || occurs c rest
  end.

(** A query string of printable ASCII characters. *)
Fixpoint printable (s : string) : bool :=
  match s with
  | EmptyString => true
  | String c rest =>
      (32 <=? nat_of_ascii c)%nat && (nat_of_ascii c <? 127)%nat && printable rest
  end.

(** ** The configuration data

    Conditions of a rule, loaders with their options, rules and plugins,
    as webpack reads them.  A rule written with [loader] and [options] and
    a rule written with [use] both become a list of loader entries. *)
Module Storybook.

Inductive Condition : Type :=
| RegExpCondition (r : regex)
| StringCondition (s : string)
| ArrayCondition (cs : list Condition).

Inductive PostCSSPlugin : Type :=
| postcss_flexbugs_fixes
| autoprefixer (options : value).

Inductive LoaderOptions : Type :=
| Options (o : value)
| PostCSSOptions (ident : string) (sourceMap : bool)
    (plugins : unit -> list PostCSSPlugin).

Record UseEntry := {
  loader : string;
  options : option LoaderOptions
}.

Record Rule := {
  test : option Condition;
  include : option Condition;
  exclude : option Condition;
  enforce : option string;
  use : list UseEntry
}.

Inductive Plugin : Type :=
| BasePlugin (name : string)
| ModuleScopePlugin (appSrc : string)
| DefinePlugin (definitions : value)
| IgnorePlugin (resourceRegExp contextRegExp : regex)
| WatchIgnorePlugin (paths : list regex)
| TsCheckerWebpackPlugin (options : value).

(** The parts of the base configuration the function reads or assigns;
    [others] stands for everything else in it. *)
Record Configuration := {
  output_publicPath : string;
  output_devtoolModuleFilenameTemplate : option (string -> string);
  resolve_modules : list string;
  resolve_extensions : list string;
  resolve_alias : list (string * string);
  resolve_plugins : list Plugin;
  module_rules : list Rule;
  plugins : list Plugin;
  others : value
}.

(** The module [./paths]. *)
Record Paths := {
  appPath : string;
  appSrc : string;
  appNodeModules : string
}.

(** How webpack decides whether a rule handles a resource: the resource
    passes [test] and [include] when they are given (a missing [test] is a
    match) and does not pass [exclude]; an array passes when one of its
    members does, a string when the resource starts with it. *)
Fixpoint condition_matches (c : Condition) (resource : string) : bool :=
  match c with
  | RegExpCondition r => RegExp_test r resource
  | StringCondition s => startsWith resource s
  | ArrayCondition cs => existsb (fun c' => condition_matches c' resource) cs
  end.

Definition rule_applies (r : Rule) (resource : string) : bool :=
  match test r with Some c => condition_matches c resource | None => true end
  && match include r with Some c => condition_matches c resource | None => true end
  && negb match exclude r with Some c => condition_matches c resource | None => false end.

(** *** The regular expressions of the source, each under its literal *)

(** [/\/+$/] *)
Definition re_trailing_slashes : regex := Seq (Plus (Chr "/")) AtEnd.
(** [/\.js$/] *)
Definition re_js : regex := Seq (lit ".js") AtEnd.
(** [/\.html$/] *)
Definition re_html : regex := Seq (lit ".html") AtEnd.
(** Line 116 of the source: a dot, [js] or [jsx], then optionally [?]
    and any characters, then the end. *)
Definition re_js_jsx_query : regex :=
  Seq (Chr ".") (Seq (Alt (lit "js") (lit "jsx"))
                     (Seq (Opt (Seq (Chr "?") (Star Any))) AtEnd)).
(** Line 117 of the source: the same with [ts] or [tsx]. *)
Definition re_ts_tsx_query : regex :=
  Seq (Chr ".") (Seq (Alt (lit "ts") (lit "tsx"))
                     (Seq (Opt (Seq (Chr "?") (Star Any))) AtEnd)).
(** [/\.css$/] *)
Definition re_css : regex := Seq (lit ".css") AtEnd.
(** [/\.scss$/] *)
Definition re_scss : regex := Seq (lit ".scss") AtEnd.
(** [/\.json$/] *)
Definition re_json : regex := Seq (lit ".json") AtEnd.
(** [/\.bmp$/] *)
Definition re_bmp : regex := Seq (lit ".bmp") AtEnd.
(** [/\.gif$/] *)
Definition re_gif : regex := Seq (lit ".gif") AtEnd.
(** [/\.jpe?g$/] *)
Definition re_jpeg : regex := Seq (lit ".jp") (Seq (Opt (Chr "e")) (Seq (Chr "g") AtEnd)).
(** [/\.png$/] *)
Definition re_png : regex := Seq (lit ".png") AtEnd.
(** [/\.(ts|tsx)$/] *)
Definition re_ts_tsx : regex := Seq (Chr ".") (Seq (Alt (lit "ts") (lit "tsx")) AtEnd).
(** [/\.module\.css$/] *)
Definition re_module_css : regex := Seq (lit ".module.css") AtEnd.
(** [/\.module\.scss$/] *)
Definition re_module_scss : regex := Seq (lit ".module.scss") AtEnd.
(** [/^\.\/locale$/] *)
Definition re_locale : regex := Seq AtStart (Seq (lit "./locale") AtEnd).
(** [/moment$/] *)
Definition re_moment : regex := Seq (lit "moment") AtEnd.
(** [/module\.css\.d\.ts$/] *)
Definition re_module_css_d_ts : regex := Seq (lit "module.css.d.ts") AtEnd.
(** [/module\.scss\.d\.ts$/] *)
Definition re_module_scss_d_ts : regex := Seq (lit "module.scss.d.ts") AtEnd.

Section Exports.

(** What the module takes from Node and from its siblings. *)
Variable require_resolve : string -> string.
Variable path_dirname : string -> string.
Variable path_join : string -> string -> string.
Variable path_resolve : string -> string.
Variable path_delimiter : ascii.
Variable paths : Paths.
Variable NODE_PATH : string.
(** [getClientEnvironment(publicUrl).stringified] *)
Variable getClientEnvironment_stringified : string -> value.

Definition postCSSLoaderOptions : LoaderOptions :=
  PostCSSOptions "postcss" true
    (fun _ =>
       [ postcss_flexbugs_fixes;
         autoprefixer
           (VObj [ ("browsers"%string,
                    VArr [ VStr ">1%"; VStr "last 4 versions"; VStr "Firefox ESR";
                           VStr "not ie < 9" ]);
                   ("flexbox"%string, VStr "no-2009") ]) ]).

Definition media_name : value := VStr "static/media/[name].[hash:8].[ext]".

Definition source_map_rule : Rule :=
  {| test := Some (RegExpCondition re_js);
     include := Some (StringCondition (appSrc paths));
     exclude := None;
     enforce := Some "pre"%string;
     use := [ {| loader := require_resolve "source-map-loader"; options := None |} ] |}.

Definition file_rule : Rule :=
  {| test := None;
     include := None;
     exclude := Some (ArrayCondition
       [ RegExpCondition re_html;
         RegExpCondition re_js_jsx_query;
         RegExpCondition re_ts_tsx_query;
         RegExpCondition re_css;
         RegExpCondition re_scss;
         RegExpCondition re_json;
         RegExpCondition re_bmp;
         RegExpCondition re_gif;
         RegExpCondition re_jpeg;
         RegExpCondition re_png ]);
     enforce := None;
     use := [ {| loader := require_resolve "file-loader";
                 options := Some (Options (VObj [("name"%string, media_name)])) |} ] |}.

Definition url_rule : Rule :=
  {| test := Some (ArrayCondition
       [ RegExpCondition re_bmp; RegExpCondition re_gif;
         RegExpCondition re_jpeg; RegExpCondition re_png ]);
     include := None;
     exclude := None;
     enforce := None;
     use := [ {| loader := require_resolve "url-loader";
                 options := Some (Options (VObj [ ("limit"%string, VNum 10000);
                                                  ("name"%string, media_name) ])) |} ] |}.

Definition ts_rule : Rule :=
  {| test := Some (RegExpCondition re_ts_tsx);
     include := Some (StringCondition (appSrc paths));
     exclude := None;
     enforce := None;
     use := [ {| loader := require_resolve "ts-loader";
                 options := Some (Options (VObj [("transpileOnly"%string, VBool true)])) |} ] |}.

Definition style_entry : UseEntry :=
  {| loader := require_resolve "style-loader"; options := None |}.

Definition postcss_entry : UseEntry :=
  {| loader := require_resolve "postcss-loader"; options := Some postCSSLoaderOptions |}.

Definition sass_entry : UseEntry :=
  {| loader := require_resolve "sass-loader";
     options := Some (Options (VObj [("sourceMap"%string, VBool true)])) |}.

Definition css_entry (importLoaders : Z) : UseEntry :=
  {| loader := require_resolve "css-loader";
     options := Some (Options (VObj [ ("importLoaders"%string, VNum importLoaders);
                                      ("sourceMap"%string, VBool true) ])) |}.

Definition typings_entry (importLoaders : Z) : UseEntry :=
  {| loader := require_resolve "typings-for-css-modules-loader";
     options := Some (Options (VObj
       [ ("importLoaders"%string, VNum importLoaders);
         ("sourceMap"%string, VBool true);
         ("modules"%string, VBool true);
         ("namedExport"%string, VBool true);
         ("camelCase"%string, VBool true);
         ("localIdentName"%string, VStr "[name]__[local]___[hash:base64:5]") ])) |}.

Definition css_rule : Rule :=
  {| test := Some (RegExpCondition re_css);
     include := None;
     exclude := Some (RegExpCondition re_module_css);
     enforce := None;
     use := [ style_entry; css_entry 1; postcss_entry ] |}.

Definition module_css_rule : Rule :=
  {| test := Some (RegExpCondition re_module_css);
     include := None;
     exclude := None;
     enforce := None;
     use := [ style_entry; typings_entry 1; postcss_entry ] |}.

Definition scss_rule : Rule :=
  {| test := Some (RegExpCondition re_scss);
     include := None;
     exclude := Some (RegExpCondition re_module_scss);
     enforce := None;
     use := [ style_entry; css_entry 2; postcss_entry; sass_entry ] |}.

Definition module_scss_rule : Rule :=
  {| test := Some (RegExpCondition re_module_scss);
     include := None;
     exclude := None;
     enforce := None;
     use := [ style_entry; typings_entry 2; postcss_entry; sass_entry ] |}.

Definition rules : list Rule :=
  [ source_map_rule; file_rule; url_rule; ts_rule;
    css_rule; module_css_rule; scss_rule; module_scss_rule ].

(** The rules that handle a resource, in the order of the list. *)
Definition handlers (resource : string) : list Rule :=
  List.filter (fun r => rule_applies r resource) rules.

(** [publicPath.replace(/\/+$/, '')] *)
Definition publicUrl (storybookBaseConfig : Configuration) : string :=
  String_replace (output_publicPath storybookBaseConfig) re_trailing_slashes EmptyString.

(** [['node_modules', paths.appNodeModules].concat(
      process.env.NODE_PATH.split(path.delimiter).filter(Boolean))] *)
Definition modules : list string :=
  [ "node_modules"%string; appNodeModules paths ]
    ++ filter_Boolean (String_split path_delimiter NODE_PATH).

Definition extensions : list string :=
  [ ".ts"; ".tsx"; ".js"; ".json"; ".jsx" ]%string.

Definition added_plugins (storybookBaseConfig : Configuration) : list Plugin :=
  [ DefinePlugin (getClientEnvironment_stringified (publicUrl storybookBaseConfig));
    IgnorePlugin re_locale re_moment;
    WatchIgnorePlugin [ re_module_css_d_ts; re_module_scss_d_ts ];
    TsCheckerWebpackPlugin
      (VObj [ ("tsconfig"%string, VStr (path_join (appPath paths) "tsconfig.json"));
              ("tslint"%string, VStr (path_join (appPath paths) "tslint.json"));
              ("memoryLimit"%string, VNum 2048) ]) ].

(** [module.exports = function(storybookBaseConfig) { ... }] *)
Definition exports (storybookBaseConfig : Configuration) : Configuration :=
  {| output_publicPath := output_publicPath storybookBaseConfig;
     output_devtoolModuleFilenameTemplate :=
       Some (fun absoluteResourcePath => path_resolve absoluteResourcePath);
     resolve_modules := modules;
     resolve_extensions := extensions;
     resolve_alias :=
       [ ("babel-runtime"%string,
          path_dirname (require_resolve "babel-runtime/package.json"));
         ("react-native"%string, "react-native-web"%string) ];
     resolve_plugins := [ ModuleScopePlugin (appSrc paths) ];
     module_rules := rules;
     plugins := plugins storybookBaseConfig ++ added_plugins storybookBaseConfig;
     others := others storybookBaseConfig |}.

End Exports.

End Storybook.

(** Sample surroundings for the examples. *)
Definition sample_paths : Storybook.Paths :=
  {| Storybook.appPath := "/app";
     Storybook.appSrc := "/app/src";
     Storybook.appNodeModules := "/app/node_modules" |}.

Definition sample_require_resolve (name : string) : string :=
  "/app/node_modules/" +:+ name.

Definition sample_base_config : Storybook.Configuration :=
  {| Storybook.output_publicPath := "/storybook";
     Storybook.output_devtoolModuleFilenameTemplate := None;
     Storybook.resolve_modules := ["node_modules"%string];
     Storybook.resolve_extensions := [".js"; ".json"]%string;
     Storybook.resolve_alias := [];
     Storybook.resolve_plugins := [];
     Storybook.module_rules := [];
     Storybook.plugins := [Storybook.BasePlugin "HotModuleReplacementPlugin"];
     Storybook.others := VObj [] |}.

(** The properties [Object.assign] copies as own properties. *)
Definition not_proto (kv : string * value) : bool :=
  negb (String.eqb (fst kv) "__proto__").

(** * Properties *)

(** ** The hash object computes the digest of what it was fed *)

Module MD5Facts.
Import MD5.

Lemma feed_app c blk a b :
  feed c blk (a ++ b) = feed (fst (feed c blk a)) (snd (feed c blk a)) b.
Proof.
  revert c blk. induction a as [|x a IH]; intros c blk; simpl; [reflexivity|].
  destruct (length (blk ++ [x]) =? 64)%nat; apply IH.
Qed.

Lemma absorbed_createHash : absorbed createHash [].
Proof. split; reflexivity. Qed.

Lemma absorbed_update h m data :
  absorbed h m -> absorbed (update h data) (m ++ data).
Proof.
  intros [Hfeed Htotal]. unfold absorbed, update.
  rewrite feed_app, Hfeed. simpl.
  destruct (feed (state h) (pending h) data) as [c blk]. simpl.
  split; [reflexivity|]. rewrite Htotal, length_app. reflexivity.
Qed.

Lemma digest_absorbed h m : absorbed h m -> digest h = md5 m.
Proof.
  intros [Hfeed Htotal]. unfold digest, md5.
  rewrite feed_app, Hfeed, Htotal. reflexivity.
Qed.

Lemma word_bytes_range w : Forall is_byte (word_bytes w).
Proof.
  unfold word_bytes, is_byte.
  repeat constructor; apply Z.mod_pos_bound; lia.
Qed.

Lemma md5_range msg : Forall is_byte (md5 msg).
Proof.
  unfold md5, encode. rewrite !Forall_app.
  repeat split; apply word_bytes_range.
Qed.

End MD5Facts.

(** Digests of RFC 1321, appendix A.5, and one fed in two pieces. *)
Example md5_empty :
  hex (MD5.md5 []) = "d41d8cd98f00b204e9800998ecf8427e"%string.
Proof. vm_compute. reflexivity. Qed.

Example md5_abc :
  hex (MD5.md5 (utf8 "abc")) = "900150983cd24fb0d6963f7d28e17f72"%string.
Proof. vm_compute. reflexivity. Qed.

Example md5_message_digest :
  hex (MD5.md5 (utf8 "message digest")) = "f96b697d7cb7938d525a2f31aaf161d0"%string.
Proof. vm_compute. reflexivity. Qed.

Example md5_eighty_digits :
  hex (MD5.md5 (utf8
    "12345678901234567890123456789012345678901234567890123456789012345678901234567890"))
  = "57edf4a22be3c955ac49da2e2107b67a"%string.
Proof. vm_compute. reflexivity. Qed.

Example md5_in_two_updates :
  hex (MD5.digest (MD5.update (MD5.update MD5.createHash (utf8 "a")) (utf8 "bc")))
  = "900150983cd24fb0d6963f7d28e17f72"%string.
Proof. vm_compute. reflexivity. Qed.

(** ** Hexadecimal output loses nothing *)

Lemma unhex_hex_digit d : 0 <= d < 16 -> unhex_digit (hex_digit d) = d.
Proof.
  intros Hd. rewrite <- (Z2Nat.id d) at 2 by lia.
  assert (Hn : (Z.to_nat d < 16)%nat) by lia.
  unfold hex_digit. generalize dependent (Z.to_nat d). intros n Hn.
  do 16 (destruct n as [|n]; [reflexivity|]). lia.
Qed.

Lemma hex_inj bs1 bs2 :
  Forall is_byte bs1 -> Forall is_byte bs2 -> hex bs1 = hex bs2 -> bs1 = bs2.
Proof.
  intros H1. revert bs2. induction H1 as [|b1 bs1 Hb1 _ IH]; intros bs2 H2 Heq.
  - destruct bs2; [reflexivity | discriminate].
  - destruct H2 as [|b2 bs2 Hb2 H2]; [discriminate|].
    simpl in Heq. injection Heq as Hhi Hlo Hrest.
    unfold is_byte in Hb1, Hb2.
    assert (Hq : b1 / 16 = b2 / 16).
    { rewrite <- (unhex_hex_digit (b1 / 16)), <- (unhex_hex_digit (b2 / 16)).
      - now rewrite Hhi.
      - split; [apply Z.div_pos; lia | apply Z.div_lt_upper_bound; lia].
      - split; [apply Z.div_pos; lia | apply Z.div_lt_upper_bound; lia]. }
    assert (Hr : b1 mod 16 = b2 mod 16).
    { rewrite <- (unhex_hex_digit (b1 mod 16)), <- (unhex_hex_digit (b2 mod 16)).
      - now rewrite Hlo.
      - apply Z.mod_pos_bound; lia.
      - apply Z.mod_pos_bound; lia. }
    f_equal; [| now apply IH].
    rewrite (Z.div_mod b1 16), (Z.div_mod b2 16) by lia. congruence.
Qed.

(** ** [JSON.stringify] on small values *)

Example JSON_stringify_array :
  JSON_stringify (VArr [VNum (-5); VNull; VBool true; VArr []]) = "[-5,null,true,[]]"%string.
Proof. reflexivity. Qed.

Example JSON_stringify_default :
  JSON_stringify default_compilerConfig
  = ("{" +:+ QuoteJSONString "module" +:+ ":1,"
         +:+ QuoteJSONString "jsx" +:+ ":2}")%string.
Proof. reflexivity. Qed.

Example JSON_stringify_escapes :
  JSON_stringify (VStr (String "010"%char (String backslash "x")))
  = String quote ("\n\\x" +:+ String quote EmptyString).
Proof. reflexivity. Qed.

(** ** [endsWith] decides the suffix relation *)

Lemma length_append_string (a b : string) :
  String.length (a +:+ b) = (String.length a + String.length b)%nat.
Proof. induction a as [|c a IH]; simpl; [reflexivity | now rewrite IH]. Qed.

Lemma substring_whole (s : string) : substring 0 (String.length s) s = s.
Proof. induction s as [|c s IH]; simpl; [reflexivity | now rewrite IH]. Qed.

Lemma substring_after_stem (stem ext : string) :
  substring (String.length stem) (String.length ext) (stem +:+ ext) = ext.
Proof. induction stem as [|c stem IH]; simpl; [apply substring_whole | exact IH]. Qed.

Lemma substring_split (s : string) (n : nat) :
  (n <= String.length s)%nat ->
  s = substring 0 n s +:+ substring n (String.length s - n) s.
Proof.
  revert n. induction s as [|c s IH]; intros n Hn.
  - destruct n; reflexivity.
  - destruct n as [|n]; simpl.
    + now rewrite substring_whole.
    + simpl in Hn. change (String c s = String c (substring 0 n s +:+ substring n (String.length s - n) s)).
      f_equal. apply IH. lia.
Qed.

Lemma endsWith_spec (s ext : string) : endsWith s ext = true <-> ends_with s ext.
Proof.
  unfold endsWith, ends_with. split.
  - destruct (String.length s <? String.length ext)%nat eqn:Hlt; [discriminate|].
    apply Nat.ltb_ge in Hlt. intros Heq. apply String.eqb_eq in Heq.
    exists (substring 0 (String.length s - String.length ext) s).
    rewrite (substring_split s (String.length s - String.length ext)) at 1 by lia.
    f_equal.
    replace (String.length s - (String.length s - String.length ext))%nat
      with (String.length ext) by lia.
    exact Heq.
  - intros [stem ->]. rewrite length_append_string.
    destruct (String.length stem + String.length ext <? String.length ext)%nat eqn:Hlt.
    + apply Nat.ltb_lt in Hlt. lia.
    + replace (String.length stem + String.length ext - String.length ext)%nat
        with (String.length stem) by lia.
      rewrite substring_after_stem. apply String.eqb_refl.
Qed.

Lemma endsWith_false (s ext : string) : ~ ends_with s ext -> endsWith s ext = false.
Proof.
  intros H. destruct (endsWith s ext) eqn:E; [|reflexivity].
  apply endsWith_spec in E. contradiction.
Qed.

Lemma typescript_path_test (path : string) :
  endsWith path ".ts" || endsWith path ".tsx" = true <-> is_typescript_path path.
Proof.
  unfold is_typescript_path. rewrite orb_true_iff, !endsWith_spec. reflexivity.
Qed.

(** ** Own properties *)

Lemma lookup_set_prop_eq k v ps : lookup_prop k (set_prop k v ps) = Some v.
Proof.
  induction ps as [|[k' v'] ps IH]; simpl.
  - now rewrite String.eqb_refl.
  - destruct (String.eqb k k') eqn:E; simpl.
    + now rewrite String.eqb_refl.
    + now rewrite E.
Qed.

Lemma lookup_set_prop_ne k k' v ps :
  k <> k' -> lookup_prop k (set_prop k' v ps) = lookup_prop k ps.
Proof.
  intros Hne. apply String.eqb_neq in Hne.
  induction ps as [|[k2 v2] ps IH]; simpl.
  - now rewrite Hne.
  - destruct (String.eqb k' k2) eqn:E; simpl.
    + apply String.eqb_eq in E. subst k2. now rewrite Hne.
    + now rewrite IH.
Qed.

Lemma lookup_delete_prop_eq k ps : lookup_prop k (delete_prop k ps) = None.
Proof.
  induction ps as [|[k' v'] ps IH]; simpl; [reflexivity|].
  destruct (String.eqb k k') eqn:E; simpl; [exact IH | now rewrite E].
Qed.

Lemma lookup_delete_prop_ne k k' ps :
  k <> k' -> lookup_prop k (delete_prop k' ps) = lookup_prop k ps.
Proof.
  intros Hne. apply String.eqb_neq in Hne.
  induction ps as [|[k2 v2] ps IH]; simpl; [reflexivity|].
  destruct (String.eqb k' k2) eqn:E; simpl.
  - apply String.eqb_eq in E. subst k2. now rewrite Hne.
  - now rewrite IH.
Qed.

Lemma lookup_prop_absent k (ps : props) :
  ~ In k (map fst ps) -> lookup_prop k ps = None.
Proof.
  induction ps as [|[k' v'] ps IH]; simpl; intros Hnotin; [reflexivity|].
  destruct (String.eqb k k') eqn:E.
  - apply String.eqb_eq in E. subst. tauto.
  - apply IH. tauto.
Qed.

(** Copying properties one by one: with distinct names in the source, a
    name reads in the copy as it does in the source, or as it did in the
    target when the source lacks it. *)
Lemma lookup_assign_step k (source target : props) :
  k <> "__proto__"%string ->
  List.NoDup (map fst source) ->
  lookup_prop k
    (fold_left
       (fun acc kv => if String.eqb (fst kv) "__proto__" then acc
                      else set_prop (fst kv) (snd kv) acc)
       source target)
  = match lookup_prop k source with
    | Some v => Some v
    | None => lookup_prop k target
    end.
Proof.
  intros Hk. revert target.
  induction source as [|[k' v'] source IH]; intros target Hnd; simpl; [reflexivity|].
  inversion Hnd as [|? ? Hnotin Hnd']; subst.
  rewrite (IH _ Hnd').
  destruct (String.eqb k k') eqn:E.
  - apply String.eqb_eq in E. subst k'.
    rewrite (lookup_prop_absent _ _ Hnotin).
    apply String.eqb_neq in Hk. rewrite Hk.
    apply lookup_set_prop_eq.
  - destruct (lookup_prop k source); [reflexivity|].
    destruct (String.eqb k' "__proto__"); [reflexivity|].
    apply lookup_set_prop_ne. now apply String.eqb_neq.
Qed.

Lemma lookup_Object_assign k (config : value) :
  k <> "__proto__"%string ->
  List.NoDup (map fst (ownEnumerable config)) ->
  lookup_prop k (Object_assign [] config) = lookup_prop k (ownEnumerable config).
Proof.
  intros Hk Hnd. unfold Object_assign. rewrite lookup_assign_step by assumption.
  now destruct (lookup_prop k (ownEnumerable config)).
Qed.

(** ** Property names that are indexes *)

Lemma index_of_key_index_key (i : nat) : index_of_key (index_key i) = Some i.
Proof.
  unfold index_of_key, index_key.
  rewrite NilEmpty.usu, Unsigned.of_to, String.eqb_refl. reflexivity.
Qed.

Lemma index_of_key_sound (k : string) (i : nat) :
  index_of_key k = Some i -> index_key i = k.
Proof.
  unfold index_of_key. destruct (NilEmpty.uint_of_string k) as [u|]; [|discriminate].
  destruct (String.eqb (index_key (Nat.of_uint u)) k) eqn:E; [|discriminate].
  intros [= <-]. now apply String.eqb_eq.
Qed.

Lemma index_key_inj (i j : nat) : index_key i = index_key j -> i = j.
Proof.
  intros H. pose proof (index_of_key_index_key i) as Hi.
  rewrite H, index_of_key_index_key in Hi. congruence.
Qed.

Lemma lookup_indexed {A} (f : A -> value) (l : list A) : forall (j : nat) (k : string),
  lookup_prop k (indexed f j l)
  = match index_of_key k with
    | Some i => if (j <=? i)%nat then f <$> l !! (i - j)%nat else None
    | None => None
    end.
Proof.
  induction l as [|x l IH]; intros j k; simpl.
  - destruct (index_of_key k) as [i|]; [|reflexivity].
    now destruct (j <=? i)%nat.
  - destruct (String.eqb k (index_key j)) eqn:E.
    + apply String.eqb_eq in E. subst k.
      rewrite index_of_key_index_key, Nat.leb_refl, Nat.sub_diag. reflexivity.
    + rewrite IH. destruct (index_of_key k) as [i|] eqn:Ek; [|reflexivity].
      assert (Hij : i <> j).
      { intros ->. apply index_of_key_sound in Ek. subst k.
        now rewrite String.eqb_refl in E. }
      destruct (Nat.leb_spec (S j) i), (Nat.leb_spec j i); try lia; [|reflexivity].
      replace (i - j)%nat with (S (i - S j)) by lia. reflexivity.
Qed.

Lemma indexed_keys {A} (f : A -> value) (l : list A) : forall (j : nat) (k : string),
  In k (map fst (indexed f j l)) -> exists i, (j <= i)%nat /\ k = index_key i.
Proof.
  induction l as [|x l IH]; intros j k; simpl; [contradiction|].
  intros [<- | H].
  - exists j. split; [lia | reflexivity].
  - destruct (IH _ _ H) as (i & Hi & ->). exists i. split; [lia | reflexivity].
Qed.

Lemma NoDup_indexed {A} (f : A -> value) (l : list A) : forall j : nat,
  List.NoDup (map fst (indexed f j l)).
Proof.
  induction l as [|x l IH]; intros j; simpl; constructor; [|apply IH].
  intros H. destruct (indexed_keys _ _ _ _ H) as (i & Hi & Heq).
  apply index_key_inj in Heq. lia.
Qed.

(** What [Object.assign] enumerates is what the configuration owns. *)
Lemma ownEnumerable_own_property (config : value) (k : string) :
  lookup_prop k (ownEnumerable config) = own_property config k.
Proof.
  destruct config as [| b | n | json | text | es | ps]; try reflexivity; simpl.
  - rewrite lookup_indexed. destruct (index_of_key k) as [i|]; [|reflexivity].
    simpl. now rewrite Nat.sub_0_r.
  - rewrite lookup_indexed. destruct (index_of_key k) as [i|]; [|reflexivity].
    simpl. rewrite Nat.sub_0_r. now destruct (es !! i).
Qed.

Lemma ownEnumerable_distinct (config : value) :
  distinct_names config -> List.NoDup (map fst (ownEnumerable config)).
Proof.
  destruct config as [| b | n | json | text | es | ps]; simpl; intros H;
    try constructor; try apply NoDup_indexed; assumption.
Qed.

Lemma effective_config_instrumented (config : value) :
  distinct_names config ->
  instrumented_clone_of config (effective_config config true).
Proof.
  intros Hnd. apply ownEnumerable_distinct in Hnd.
  eexists. split; [reflexivity|].
  repeat split.
  - rewrite !lookup_set_prop_ne by discriminate. apply lookup_delete_prop_eq.
  - rewrite lookup_set_prop_ne by discriminate. apply lookup_set_prop_eq.
  - apply lookup_set_prop_eq.
  - intros k H1 H2 H3 H4.
    rewrite !lookup_set_prop_ne, lookup_delete_prop_ne by assumption.
    rewrite lookup_Object_assign by assumption.
    apply ownEnumerable_own_property.
Qed.

(** ** The store under the two exports *)

Lemma modify_fresh st h ps f :
  heap st = h ++ [VObj ps] ->
  modify (length h) f st = (Return tt, with_heap st (h ++ [VObj (f ps)])).
Proof.
  intros Hh. unfold modify. rewrite Hh, list_lookup_middle by reflexivity.
  do 2 f_equal. replace (length h) with (length h + 0)%nat at 1 by lia.
  now rewrite insert_app_r.
Qed.

Lemma current_config_grow st config extra :
  current_config st = Some config ->
  current_config (with_heap st (heap st ++ extra)) = Some config.
Proof. unfold current_config. simpl. apply lookup_app_l_Some. Qed.

Lemma getCacheKey_state fileData filePath configStr options st :
  snd (getCacheKey fileData filePath configStr options st) = st.
Proof.
  unfold getCacheKey, bind, read_THIS_FILE, read_compilerConfig, deref, ret.
  now destruct (heap st !! compilerConfig st).
Qed.

Lemma getCacheKey_run fileData filePath configStr options st config :
  current_config st = Some config ->
  getCacheKey fileData filePath configStr options st
  = (Return (hex (MD5.md5
       (cache_key_message (THIS_FILE st) config fileData filePath configStr
          (truthy (lookup_prop "instrument" options))))), st).
Proof.
  unfold current_config. intros Hcfg.
  unfold getCacheKey, bind, read_THIS_FILE, read_compilerConfig, deref, ret.
  rewrite Hcfg. do 3 f_equal.
  erewrite MD5Facts.digest_absorbed
    by (repeat apply MD5Facts.absorbed_update; apply MD5Facts.absorbed_createHash).
  f_equal. unfold cache_key_message, join_nul, instrument_marker.
  rewrite <- !app_assoc. reflexivity.
Qed.

(** ** MD5 cannot tell all messages apart

    There are more messages than digests, so two of them share one. *)

Lemma bounded_search (f : nat -> nat) (a n : nat) :
  (exists i, (i <= n)%nat /\ f i = a) \/ (forall i, (i <= n)%nat -> f i <> a).
Proof.
  induction n as [|n [(i & Hi & Hf) | Hnone]].
  - destruct (Nat.eq_dec (f 0%nat) a) as [Heq | Hne].
    + left. exists 0%nat. split; [lia | exact Heq].
    + right. intros i Hi. replace i with 0%nat by lia. exact Hne.
  - left. exists i. split; [lia | exact Hf].
  - destruct (Nat.eq_dec (f (S n)) a) as [Heq | Hne].
    + left. exists (S n). split; [lia | exact Heq].
    + right. intros i Hi. destruct (Nat.eq_dec i (S n)) as [-> | Hi'].
      * exact Hne.
      * apply Hnone. lia.
Qed.

Lemma pigeonhole (n : nat) :
  forall f : nat -> nat,
    (forall i, (i <= n)%nat -> (f i < n)%nat) ->
    exists i j, (i < j)%nat /\ (j <= n)%nat /\ f i = f j.
Proof.
  induction n as [|n IH]; intros f Hf.
  - specialize (Hf 0%nat (Nat.le_refl _)). lia.
  - destruct (bounded_search f (f (S n)) n) as [(i & Hi & Heq) | Hnone].
    + exists i, (S n). split; [lia | split; [lia | exact Heq]].
    + set (g := fun i => if (f i <? f (S n))%nat then f i else Nat.pred (f i)).
      destruct (IH g) as (i & j & Hij & Hj & Hg).
      * intros i Hi. unfold g.
        pose proof (Hf i ltac:(lia)) as Hfi.
        pose proof (Hf (S n) ltac:(lia)) as Hfn.
        pose proof (Hnone i Hi) as Hne.
        destruct (Nat.ltb_spec (f i) (f (S n))); lia.
      * exists i, j. split; [exact Hij | split; [lia|]].
        pose proof (Hnone i ltac:(lia)) as Hni.
        pose proof (Hnone j Hj) as Hnj.
        revert Hg. unfold g.
        destruct (Nat.ltb_spec (f i) (f (S n))); destruct (Nat.ltb_spec (f j) (f (S n))); lia.
Qed.

Lemma digest_number_range (bs : list Z) :
  Forall is_byte bs -> 0 <= digest_number bs < 256 ^ Z.of_nat (length bs).
Proof.
  induction 1 as [|b bs Hb _ IH].
  - simpl. lia.
  - unfold is_byte in Hb.
    change (digest_number (b :: bs)) with (b + 256 * digest_number bs).
    change (length (b :: bs)) with (S (length bs)).
    replace (Z.of_nat (S (length bs))) with (Z.succ (Z.of_nat (length bs))) by lia.
    rewrite Z.pow_succ_r by lia. lia.
Qed.

Lemma digest_number_inj (bs1 bs2 : list Z) :
  Forall is_byte bs1 -> Forall is_byte bs2 -> length bs1 = length bs2 ->
  digest_number bs1 = digest_number bs2 -> bs1 = bs2.
Proof.
  intros H1. revert bs2.
  induction H1 as [|b1 bs1 Hb1 _ IH]; intros bs2 H2 Hlen Heq.
  - destruct bs2; [reflexivity | discriminate].
  - destruct H2 as [|b2 bs2 Hb2 H2]; [discriminate|].
    simpl in Hlen. unfold is_byte in Hb1, Hb2.
    change (b1 + 256 * digest_number bs1 = b2 + 256 * digest_number bs2) in Heq.
    assert (Hrest : digest_number bs1 = digest_number bs2) by lia.
    f_equal; [lia|]. apply IH; [assumption | congruence | assumption].
Qed.

Lemma md5_length (msg : list byte) : length (MD5.md5 msg) = 16%nat.
Proof. reflexivity. Qed.

Lemma letters_length (n : nat) : String.length (letters n) = n.
Proof. induction n as [|n IH]; simpl; congruence. Qed.

Lemma md5_collides_within (before after : list byte) :
  exists n1 n2 : nat,
    n1 <> n2
    /\ MD5.md5 (before ++ utf8 (letters n1) ++ after)
       = MD5.md5 (before ++ utf8 (letters n2) ++ after).
Proof.
  set (d := fun n => MD5.md5 (before ++ utf8 (letters n) ++ after)).
  assert (Hrange : forall n, 0 <= digest_number (d n) < 256 ^ 16).
  { intros n. apply (digest_number_range (d n)), MD5Facts.md5_range. }
  remember (256 ^ 16) as bound eqn:Hbound.
  destruct (pigeonhole (Z.to_nat bound) (fun n => Z.to_nat (digest_number (d n))))
    as (i & j & Hij & _ & Heq).
  { intros n _. specialize (Hrange n). lia. }
  exists i, j. split; [lia|].
  apply digest_number_inj; try apply MD5Facts.md5_range; [reflexivity|].
  pose proof (Hrange i). pose proof (Hrange j). fold (d i) (d j). lia.
Qed.

(** ** The hashed message determines the fields *)

Lemma utf8_inj s1 s2 : utf8 s1 = utf8 s2 -> s1 = s2.
Proof.
  unfold utf8. intros H.
  rewrite <- (string_of_list_byte_of_string s1), <- (string_of_list_byte_of_string s2).
  now rewrite H.
Qed.

Lemma split_at_first_nul (F1 F2 R1 R2 : list byte) :
  ~ In x00 F1 -> ~ In x00 F2 ->
  F1 ++ x00 :: R1 = F2 ++ x00 :: R2 -> F1 = F2 /\ R1 = R2.
Proof.
  revert F2. induction F1 as [|a F1 IH]; intros [|b F2] H1 H2 Heq; simpl in *.
  - now injection Heq.
  - injection Heq as Hb _. subst b. tauto.
  - injection Heq as Ha _. subst a. tauto.
  - injection Heq as Hab Hrest. subst b.
    destruct (IH F2) as [-> ->]; try tauto.
Qed.

Lemma field_separated (f1 f2 : string) (R1 R2 : list byte) :
  separable f1 f2 ->
  utf8 f1 ++ x00 :: R1 = utf8 f2 ++ x00 :: R2 -> f1 = f2 /\ R1 = R2.
Proof.
  intros [-> | [H1 H2]] Heq.
  - split; [reflexivity | ]. apply app_inv_head in Heq. congruence.
  - destruct (split_at_first_nul _ _ _ _ H1 H2 Heq) as [Hf HR].
    split; [now apply utf8_inj | assumption].
Qed.

Lemma last_fields (c1 c2 : string) (J : list byte) (i1 i2 : bool) :
  utf8 c1 ++ x00 :: J ++ x00 :: utf8 (instrument_marker i1)
  = utf8 c2 ++ x00 :: J ++ x00 :: utf8 (instrument_marker i2) ->
  c1 = c2 /\ i1 = i2.
Proof.
  intros Heq.
  assert (Hi : i1 = i2).
  { apply (f_equal (@rev byte)) in Heq.
    rewrite !rev_app_distr in Heq. simpl in Heq.
    rewrite !rev_app_distr in Heq. simpl in Heq.
    destruct i1, i2; try reflexivity; simpl in Heq;
      rewrite <- ?app_assoc in Heq; simpl in Heq; discriminate Heq. }
  subst i2. split; [|reflexivity].
  apply utf8_inj.
  change (x00 :: J ++ x00 :: utf8 (instrument_marker i1))
    with ([x00] ++ J ++ x00 :: utf8 (instrument_marker i1)) in Heq.
  now apply app_inv_tail in Heq.
Qed.

Lemma cache_key_message_inj this_file config f1 p1 c1 i1 f2 p2 c2 i2 :
  separable f1 f2 -> separable p1 p2 ->
  cache_key_message this_file config f1 p1 c1 i1
  = cache_key_message this_file config f2 p2 c2 i2 ->
  (f1, p1, c1, i1) = (f2, p2, c2, i2).
Proof.
  intros Hf Hp Heq. unfold cache_key_message, join_nul in Heq.
  apply app_inv_head in Heq. injection Heq as Heq.
  destruct (field_separated _ _ _ _ Hf Heq) as [-> Heq1].
  destruct (field_separated _ _ _ _ Hp Heq1) as [-> Heq2].
  destruct (last_fields _ _ _ _ _ Heq2) as [-> ->].
  reflexivity.
Qed.

Lemma cache_key_message_shape this_file config f p c i :
  cache_key_message this_file config f p c i
  = this_file ++ x00 :: joined_arguments f p c
      ++ x00 :: utf8 (JSON_stringify config) ++ x00 :: utf8 (instrument_marker i).
Proof.
  unfold cache_key_message, joined_arguments, join_nul.
  rewrite <- !app_assoc. simpl. rewrite <- !app_assoc. reflexivity.
Qed.

Lemma last_fields_bytes (X1 X2 J : list byte) (i1 i2 : bool) :
  X1 ++ x00 :: J ++ x00 :: utf8 (instrument_marker i1)
  = X2 ++ x00 :: J ++ x00 :: utf8 (instrument_marker i2) ->
  X1 = X2 /\ i1 = i2.
Proof.
  intros Heq.
  assert (Hi : i1 = i2).
  { apply (f_equal (@rev byte)) in Heq.
    rewrite !rev_app_distr in Heq. simpl in Heq.
    rewrite !rev_app_distr in Heq. simpl in Heq.
    destruct i1, i2; try reflexivity; simpl in Heq;
      rewrite <- ?app_assoc in Heq; simpl in Heq; discriminate Heq. }
  subst i2. split; [|reflexivity].
  change (x00 :: J ++ x00 :: utf8 (instrument_marker i1))
    with ([x00] ++ J ++ x00 :: utf8 (instrument_marker i1)) in Heq.
  now apply app_inv_tail in Heq.
Qed.

Lemma same_message_iff this_file config f1 p1 c1 i1 f2 p2 c2 i2 :
  cache_key_message this_file config f1 p1 c1 i1
  = cache_key_message this_file config f2 p2 c2 i2
  <-> joined_arguments f1 p1 c1 = joined_arguments f2 p2 c2 /\ i1 = i2.
Proof.
  rewrite !cache_key_message_shape. split.
  - intros Heq. apply app_inv_head in Heq. injection Heq as Heq.
    now apply last_fields_bytes in Heq.
  - intros [-> ->]. reflexivity.
Qed.

Section Properties.

Variable tsc_transpileModule :
  string -> tsc.TranspileOptions -> result tsc.TranspileOutput.

Lemma process_passthrough src path config options st :
  endsWith path ".ts" || endsWith path ".tsx" = false ->
  process tsc_transpileModule src path config options st = (Return src, st).
Proof. intros Htest. unfold process. now rewrite Htest. Qed.

Lemma process_plain src path config options st cfg :
  current_config st = Some cfg ->
  endsWith path ".ts" || endsWith path ".tsx" = true ->
  truthy (lookup_prop "instrument" options) = false ->
  process tsc_transpileModule src path config options st
  = (output_of (tsc_transpileModule src
       {| tsc.compilerOptions := cfg; tsc.fileName := path |}), st).
Proof.
  unfold current_config. intros Hcfg Htest Hinstr.
  unfold process. rewrite Htest, Hinstr.
  unfold bind, read_compilerConfig, ret, deref, lift. simpl. rewrite Hcfg.
  now destruct (tsc_transpileModule _ _).
Qed.

Lemma process_instrumented src path config options st cfg :
  current_config st = Some cfg ->
  endsWith path ".ts" || endsWith path ".tsx" = true ->
  truthy (lookup_prop "instrument" options) = true ->
  process tsc_transpileModule src path config options st
  = (output_of (tsc_transpileModule src
       {| tsc.compilerOptions := effective_config cfg true; tsc.fileName := path |}),
     with_heap st (heap st ++ [effective_config cfg true])).
Proof.
  unfold current_config. intros Hcfg Htest Hinstr.
  unfold process. rewrite Htest, Hinstr.
  unfold bind at 1. unfold read_compilerConfig at 1.
  unfold bind at 1. unfold bind at 1. unfold alloc.
  unfold bind at 1. unfold bind at 1. unfold read_compilerConfig, deref at 1.
  cbn [heap with_heap compilerConfig].
  rewrite (lookup_app_l_Some _ _ _ _ Hcfg).
  unfold bind at 1.
  erewrite modify_fresh by reflexivity.
  unfold bind at 1. erewrite modify_fresh by reflexivity.
  unfold bind at 1. erewrite modify_fresh by reflexivity.
  unfold bind at 1. erewrite modify_fresh by reflexivity.
  unfold ret at 1. unfold bind at 1. unfold deref.
  cbn [heap with_heap compilerConfig].
  rewrite list_lookup_middle by reflexivity.
  unfold bind, lift, ret, effective_config.
  now destruct (tsc_transpileModule _ _).
Qed.

Lemma exec_frame c st cfg :
  current_config st = Some cfg ->
  current_config (snd (exec tsc_transpileModule c st)) = Some cfg
  /\ THIS_FILE (snd (exec tsc_transpileModule c st)) = THIS_FILE st
  /\ compilerConfig (snd (exec tsc_transpileModule c st)) = compilerConfig st
  /\ heap st `prefix_of` heap (snd (exec tsc_transpileModule c st)).
Proof.
  intros Hcfg. destruct c as [src path config options | fileData filePath configStr options];
    simpl.
  - destruct (endsWith path ".ts" || endsWith path ".tsx") eqn:Htest.
    + destruct (truthy (lookup_prop "instrument" options)) eqn:Hinstr.
      * rewrite (process_instrumented _ _ _ _ _ _ Hcfg Htest Hinstr). simpl.
        repeat split; [now apply current_config_grow | now apply prefix_app_r].
      * rewrite (process_plain _ _ _ _ _ _ Hcfg Htest Hinstr). simpl.
        repeat split; assumption || reflexivity.
    + rewrite (process_passthrough _ _ _ _ _ Htest). simpl.
      repeat split; assumption || reflexivity.
  - rewrite getCacheKey_state. repeat split; assumption || reflexivity.
Qed.

Lemma run_frame calls st cfg :
  current_config st = Some cfg ->
  current_config (run tsc_transpileModule calls st) = Some cfg
  /\ THIS_FILE (run tsc_transpileModule calls st) = THIS_FILE st
  /\ compilerConfig (run tsc_transpileModule calls st) = compilerConfig st
  /\ heap st `prefix_of` heap (run tsc_transpileModule calls st).
Proof.
  revert st. induction calls as [|c calls IH]; intros st Hcfg; simpl.
  - repeat split; assumption || reflexivity.
  - destruct (exec_frame c st cfg Hcfg) as (Hc & Ht & Hv & Hp).
    destruct (IH _ Hc) as (Hc' & Ht' & Hv' & Hp').
    repeat split; [assumption | congruence | congruence | now transitivity (heap (snd (exec tsc_transpileModule c st)))].
Qed.

Lemma getProp_truthy_holder (tsconfig o : value) :
  getProp tsconfig "compilerOptions" = Some o -> ToBoolean tsconfig = true.
Proof. destruct tsconfig; simpl; congruence. Qed.

Lemma loadModule_returns w : fst (loadModule w) = Return tt.
Proof.
  unfold loadModule, module_body, fs_existsSync_tsconfigPath, require_tsconfigPath.
  destruct (tsconfig_json w) as [[tsconfig|e]|]; try reflexivity.
  unfold try_catch, bind, lift.
  destruct (getProp tsconfig "compilerOptions") as [o|] eqn:Ho.
  - rewrite (getProp_truthy_holder _ _ Ho). simpl.
    now destruct (ToBoolean o).
  - simpl. rewrite andb_false_r. reflexivity.
Qed.

Lemma loadModule_config w :
  current_config (snd (loadModule w)) = Some (CompilerConfig w).
Proof.
  unfold loadModule, module_body, CompilerConfig, fs_existsSync_tsconfigPath,
    require_tsconfigPath.
  destruct (tsconfig_json w) as [[tsconfig|e]|]; try reflexivity.
  unfold try_catch, bind, lift.
  destruct (getProp tsconfig "compilerOptions") as [o|] eqn:Ho.
  - rewrite (getProp_truthy_holder _ _ Ho). simpl.
    now destruct (ToBoolean o).
  - simpl. rewrite andb_false_r. reflexivity.
Qed.

Lemma loadModule_THIS_FILE w : THIS_FILE (snd (loadModule w)) = own_source w.
Proof.
  unfold loadModule, module_body, fs_existsSync_tsconfigPath, require_tsconfigPath.
  destruct (tsconfig_json w) as [[tsconfig|e]|]; try reflexivity.
  unfold try_catch, bind, lift.
  destruct (getProp tsconfig "compilerOptions") as [o|] eqn:Ho.
  - rewrite (getProp_truthy_holder _ _ Ho). simpl.
    now destruct (ToBoolean o).
  - simpl. rewrite andb_false_r. reflexivity.
Qed.

Lemma state_after_config w calls :
  current_config (state_after tsc_transpileModule w calls) = Some (CompilerConfig w).
Proof. apply run_frame, loadModule_config. Qed.

Lemma state_after_THIS_FILE w calls :
  THIS_FILE (state_after tsc_transpileModule w calls) = own_source w.
Proof.
  unfold state_after.
  destruct (run_frame calls _ _ (loadModule_config w)) as (_ & Ht & _).
  rewrite Ht. apply loadModule_THIS_FILE.
Qed.

(** The outcome of [process] in a state that holds a configuration. *)
Lemma process_outcome src path config options st cfg :
  current_config st = Some cfg ->
  is_typescript_path path ->
  fst (process tsc_transpileModule src path config options st)
  = output_of (tsc_transpileModule src
      {| tsc.compilerOptions :=
           effective_config cfg (truthy (lookup_prop "instrument" options));
         tsc.fileName := path |}).
Proof.
  intros Hcfg Hts. apply typescript_path_test in Hts.
  destruct (truthy (lookup_prop "instrument" options)) eqn:Hinstr.
  - now rewrite (process_instrumented _ _ _ _ _ _ Hcfg Hts Hinstr).
  - now rewrite (process_plain _ _ _ _ _ _ Hcfg Hts Hinstr).
Qed.

End Properties.

(** ** The cache key *)

(** C1. In every world and after any earlier calls, [getCacheKey] returns
    the hexadecimal MD5 digest of six fields joined by null bytes, in this
    order: the bytes of the transform's own file, [fileData], [filePath],
    [configStr], the JSON text of the process-wide configuration, and
    [instrument] or the empty string according to [options.instrument];
    and it leaves the module state as it was.  The configuration is taken
    in the representation of numbers the model fixes ([safe_integers]),
    which every configuration has. *)
Theorem getCacheKey_digest_of_six_fields (tm : compiler) (w : World)
    (calls : list call) (fileData filePath configStr : string) (options : props) :
  safe_integers (CompilerConfig w) = true ->
  getCacheKey fileData filePath configStr options (state_after tm w calls)
  = (Return (hex (MD5.md5 (join_nul
       [ own_source w;
         utf8 fileData;
         utf8 filePath;
         utf8 configStr;
         utf8 (JSON_stringify (CompilerConfig w));
         utf8 (if truthy (lookup_prop "instrument" options)
               then "instrument"%string else EmptyString) ]))),
     state_after tm w calls).
Proof.
  intros _.
  rewrite (getCacheKey_run _ _ _ _ _ _ (state_after_config tm w calls)).
  now rewrite state_after_THIS_FILE.
Qed.

Lemma getCacheKey_digest_of_six_fields_witness :
  getCacheKey "a" "b" "c" [] (state_after sample_compiler sample_world [])
  = (Return (hex (MD5.md5 (join_nul
       [ own_source sample_world;
         utf8 "a";
         utf8 "b";
         utf8 "c";
         utf8 (JSON_stringify (CompilerConfig sample_world));
         utf8 EmptyString ]))),
     state_after sample_compiler sample_world []).
Proof.
  apply (getCacheKey_digest_of_six_fields sample_compiler sample_world [] "a" "b" "c" []).
  reflexivity.
Defined.

(** A configuration with a number that is not a safe integer: the key is
    the digest of the text [JSON.stringify] prints for it. *)
Example getCacheKey_large_number :
  fst (getCacheKey "a" "b" "c" []
         (snd (loadModule
                 {| own_source := sample_source;
                    tsconfig_json :=
                      Some (Return (VObj [("compilerOptions"%string,
                                           VObj [("n"%string, VNumOther "1e+21")])])) |})))
  = Return (hex (MD5.md5 (join_nul
      [ sample_source; utf8 "a"; utf8 "b"; utf8 "c";
        utf8 ("{" +:+ QuoteJSONString "n" +:+ ":1e+21}"); utf8 EmptyString ]))).
Proof. vm_compute. reflexivity. Qed.

Example getCacheKey_sample :
  fst (getCacheKey "a" "b" "c" [] sample_state)
  = Return "d73dea43d86ab5df34d4aa0b2c6f7439"%string.
Proof. vm_compute. reflexivity. Qed.

(** C2, as the specification states it, fails: a file and a path that
    differ from another file and path and yet get the same key, because a
    null byte inside a field reads as a separator. *)
Lemma getCacheKey_shared_by_different_inputs :
  (fileData_ab, "c"%string) <> ("a"%string, filePath_bc)
  /\ fst (getCacheKey fileData_ab "c" "{}" [] sample_state)
     = fst (getCacheKey "a" filePath_bc "{}" [] sample_state).
Proof. split; [discriminate | vm_compute; reflexivity]. Qed.

(** Nor can a change of a single input be promised to change the key:
    whatever the other inputs, two different file contents get the same
    key, since MD5 has fewer digests than there are file contents. *)
Lemma getCacheKey_collides_on_fileData (tm : compiler) (w : World)
    (calls : list call) (filePath configStr : string) (options : props) :
  exists fileData1 fileData2 : string,
    fileData1 <> fileData2
    /\ fst (getCacheKey fileData1 filePath configStr options (state_after tm w calls))
       = fst (getCacheKey fileData2 filePath configStr options (state_after tm w calls)).
Proof.
  destruct (md5_collides_within
              (own_source w ++ [x00])
              (x00 :: join_nul
                 [ utf8 filePath; utf8 configStr;
                   utf8 (JSON_stringify (CompilerConfig w));
                   utf8 (instrument_marker (truthy (lookup_prop "instrument" options))) ]))
    as (n1 & n2 & Hne & Heq).
  exists (letters n1), (letters n2). split.
  - intros H. apply Hne. rewrite <- (letters_length n1), <- (letters_length n2).
    now rewrite H.
  - rewrite !(getCacheKey_run _ _ _ _ _ _ (state_after_config tm w calls)).
    rewrite state_after_THIS_FILE. cbn [fst]. do 2 f_equal.
    unfold cache_key_message.
    change (join_nul (own_source w :: utf8 (letters n1) :: ?rest))
      with (own_source w ++ x00 :: utf8 (letters n1) ++ x00 :: join_nul rest).
    change (join_nul (own_source w :: utf8 (letters n2) :: ?rest))
      with (own_source w ++ x00 :: utf8 (letters n2) ++ x00 :: join_nul rest).
    rewrite <- !app_assoc in Heq. exact Heq.
Qed.

(** C2, amended. For a fixed world, two argument tuples are hashed over
    the same message exactly when they agree on the truth of
    [options.instrument] and on the text made of [fileData], [filePath]
    and [configStr] with null bytes between them.  In particular the
    messages differ whenever the tuples differ and at most one of the
    three texts changes, and whenever each of [fileData] and [filePath]
    is unchanged or free of null bytes.  The keys of two calls are equal
    exactly when MD5 gives their messages the same digest. *)
Theorem getCacheKey_sensitive_up_to_md5 (tm : compiler) (w : World)
    (calls : list call) (f1 p1 c1 f2 p2 c2 : string) (o1 o2 : props) :
  (cache_key_message (own_source w) (CompilerConfig w) f1 p1 c1
      (truthy (lookup_prop "instrument" o1))
   = cache_key_message (own_source w) (CompilerConfig w) f2 p2 c2
      (truthy (lookup_prop "instrument" o2))
   <-> joined_arguments f1 p1 c1 = joined_arguments f2 p2 c2
       /\ truthy (lookup_prop "instrument" o1) = truthy (lookup_prop "instrument" o2))
  /\ ((f1, p1, c1, truthy (lookup_prop "instrument" o1))
        <> (f2, p2, c2, truthy (lookup_prop "instrument" o2)) ->
      at_most_one_text_differs f1 p1 c1 f2 p2 c2
      \/ (separable f1 f2 /\ separable p1 p2) ->
      cache_key_message (own_source w) (CompilerConfig w) f1 p1 c1
      (truthy (lookup_prop "instrument" o1))
      <> cache_key_message (own_source w) (CompilerConfig w) f2 p2 c2
      (truthy (lookup_prop "instrument" o2)))
  /\ (fst (getCacheKey f1 p1 c1 o1 (state_after tm w calls))
      = fst (getCacheKey f2 p2 c2 o2 (state_after tm w calls)) <->
      MD5.md5 (cache_key_message (own_source w) (CompilerConfig w) f1 p1 c1
      (truthy (lookup_prop "instrument" o1)))
      = MD5.md5 (cache_key_message (own_source w) (CompilerConfig w) f2 p2 c2
      (truthy (lookup_prop "instrument" o2)))).
Proof.
  split; [apply same_message_iff|]. split.
  - intros Hne Hcase Heq. apply Hne.
    destruct Hcase as [Hone | [Hf Hp]];
      [|exact (cache_key_message_inj _ _ _ _ _ _ _ _ _ _ Hf Hp Heq)].
    apply same_message_iff in Heq as [Hj Hi]. rewrite Hi.
    unfold joined_arguments, join_nul in Hj.
    destruct Hone as [[-> ->] | [[-> ->] | [-> ->]]].
    + apply app_inv_tail, utf8_inj in Hj. now subst.
    + apply app_inv_head in Hj. injection Hj as Hj.
      apply app_inv_tail, utf8_inj in Hj. now subst.
    + apply app_inv_head in Hj. injection Hj as Hj.
      apply app_inv_head in Hj. injection Hj as Hj.
      apply utf8_inj in Hj. now subst.
  - rewrite !(getCacheKey_run _ _ _ _ _ _ (state_after_config tm w calls)).
    rewrite state_after_THIS_FILE. cbn [fst]. split.
    + intros Heq. apply hex_inj; [apply MD5Facts.md5_range .. | congruence].
    + unfold cache_key_message. now intros ->.
Qed.

Lemma getCacheKey_sensitive_up_to_md5_witness :
  cache_key_message (own_source sample_world) (CompilerConfig sample_world)
      fileData_ab "p.ts" "{}" false
    <> cache_key_message (own_source sample_world) (CompilerConfig sample_world)
         fileData_ac "p.ts" "{}" false.
Proof.
  apply (getCacheKey_sensitive_up_to_md5 sample_compiler sample_world []
           fileData_ab "p.ts" "{}" fileData_ac "p.ts" "{}" [] []).
  - discriminate.
  - left. left. split; reflexivity.
Defined.

(** C3. [getCacheKey] leaves the module state exactly as it found it, so
    a second call with the same arguments returns the same string, and so
    does a call at any later time in the life of the process; [process]
    leaves [THIS_FILE], the variable [compilerConfig], the configuration
    it refers to and every object that existed before the call as they
    were (it may add a fresh object to the store). *)
Theorem getCacheKey_deterministic_and_pure (tm : compiler) (w : World)
    (calls : list call) (fileData filePath configStr : string) (options : props)
    (src path : string) (config : value) (options' : props) :
  snd (getCacheKey fileData filePath configStr options (state_after tm w calls))
    = state_after tm w calls
  /\ fst (getCacheKey fileData filePath configStr options
            (snd (getCacheKey fileData filePath configStr options
                    (state_after tm w calls))))
     = fst (getCacheKey fileData filePath configStr options (state_after tm w calls))
  /\ fst (getCacheKey fileData filePath configStr options (state_after tm w calls))
     = fst (getCacheKey fileData filePath configStr options (state_after tm w []))
  /\ THIS_FILE (snd (process tm src path config options' (state_after tm w calls)))
     = THIS_FILE (state_after tm w calls)
  /\ compilerConfig (snd (process tm src path config options' (state_after tm w calls)))
     = compilerConfig (state_after tm w calls)
  /\ current_config (snd (process tm src path config options' (state_after tm w calls)))
     = current_config (state_after tm w calls)
  /\ heap (state_after tm w calls)
       `prefix_of` heap (snd (process tm src path config options' (state_after tm w calls))).
Proof.
  split; [apply getCacheKey_state|].
  split; [now rewrite getCacheKey_state|].
  split.
  { rewrite !(getCacheKey_run _ _ _ _ _ _ (state_after_config tm w _)).
    now rewrite !state_after_THIS_FILE. }
  pose proof (state_after_config tm w calls) as Hcfg.
  destruct (exec_frame tm (CallProcess src path config options') _ _ Hcfg)
    as (Hc & Ht & Hv & Hp).
  simpl in Hc, Ht, Hv, Hp. rewrite Hcfg. auto.
Qed.

(** ** The transform *)

(** C4. When the path ends neither in [.ts] nor in [.tsx], [process]
    returns the source text it was given, whatever the other arguments,
    and does nothing else. *)
Theorem process_identity_on_other_files (tm : compiler) (src path : string)
    (config : value) (options : props) (st : ModuleState) :
  ~ ends_with path ".ts" -> ~ ends_with path ".tsx" ->
  process tm src path config options st = (Return src, st).
Proof.
  intros Hts Htsx. apply process_passthrough.
  now rewrite (endsWith_false _ _ Hts), (endsWith_false _ _ Htsx).
Qed.

Lemma process_identity_on_other_files_witness :
  process sample_compiler "const x: number = 1;" "foo.js" VNull [] sample_state
  = (Return "const x: number = 1;"%string, sample_state).
Proof.
  apply process_identity_on_other_files.
  - intros H. apply endsWith_spec in H. vm_compute in H. discriminate H.
  - intros H. apply endsWith_spec in H. vm_compute in H. discriminate H.
Defined.

(** C5. On a path that ends in [.ts] or [.tsx], [process] hands the
    compiler the source text, the path as [fileName], and as
    [compilerOptions] the effective configuration, and returns the
    compiler's [outputText].  The effective configuration is the
    process-wide configuration itself when [options.instrument] is falsy;
    when it is truthy it is an object without [sourceMap], with
    [inlineSourceMap] and [inlineSources] set to [true], that agrees with
    the own properties of the process-wide configuration on every other
    name (the name [__proto__] aside, which no assignment can copy).  The
    own properties of a configuration that is a string are its UTF-16
    code units, those of an array its elements, each under its index; an
    object holds each of its names once. *)
Theorem process_transpiles_with_effective_config (tm : compiler) (w : World)
    (calls : list call) (src path : string) (config : value) (options : props) :
  is_typescript_path path ->
  distinct_names (CompilerConfig w) ->
  exists effective : value,
    fst (process tm src path config options (state_after tm w calls))
    = output_of (tm src {| tsc.compilerOptions := effective; tsc.fileName := path |})
    /\ if truthy (lookup_prop "instrument" options)
       then instrumented_clone_of (CompilerConfig w) effective
       else effective = CompilerConfig w.
Proof.
  intros Hts Hnd.
  exists (effective_config (CompilerConfig w) (truthy (lookup_prop "instrument" options))).
  split.
  - apply process_outcome; [apply state_after_config | assumption].
  - destruct (truthy (lookup_prop "instrument" options)).
    + now apply effective_config_instrumented.
    + reflexivity.
Qed.

Lemma process_transpiles_with_effective_config_witness :
  exists effective : value,
    fst (process sample_compiler "let x = <a/>;" "App.tsx" VNull
           [("instrument"%string, VBool true)]
           (state_after sample_compiler sample_world []))
    = output_of (sample_compiler "let x = <a/>;"
                   {| tsc.compilerOptions := effective; tsc.fileName := "App.tsx" |})
    /\ instrumented_clone_of (CompilerConfig sample_world) effective.
Proof.
  apply (process_transpiles_with_effective_config sample_compiler sample_world []
           "let x = <a/>;" "App.tsx" VNull [("instrument"%string, VBool true)]).
  - right. exists "App"%string. reflexivity.
  - simpl. repeat constructor; simpl; intuition discriminate.
Defined.

(** A project file whose [compilerOptions] is a string: the coverage
    run's options hold one property for each UTF-16 code unit. *)
Example effective_config_of_a_string :
  effective_config (VStr (String "195" (String "169" EmptyString))) true
  = VObj [ ("0"%string, VStr (String "195" (String "169" EmptyString)));
           ("inlineSourceMap"%string, VBool true);
           ("inlineSources"%string, VBool true) ].
Proof. vm_compute. reflexivity. Qed.

(** A character outside the basic plane, here U+1F600, is two
    properties: the surrogates D83D and DE00. *)
Example code_units_of_a_surrogate_pair :
  code_units (String "240" (String "159" (String "152" (String "128" EmptyString))))
  = [ String "237" (String "160" (String "189" EmptyString));
      String "237" (String "184" (String "128" EmptyString)) ].
Proof. vm_compute. reflexivity. Qed.

Example own_property_of_a_string :
  own_property (VStr (String "195" (String "169" EmptyString))) "0"
  = Some (VStr (String "195" (String "169" EmptyString)))
  /\ own_property (VStr (String "195" (String "169" EmptyString))) "1" = None
  /\ own_property (VStr "ab") "01" = None
  /\ own_property (VArr [VNull; VBool true]) "1" = Some (VBool true).
Proof. vm_compute. repeat split. Qed.

Example process_sample_instrumented :
  fst (process sample_compiler "x" "a.ts" VNull [("instrument"%string, VBool true)]
         sample_state)
  = Return (JSON_stringify
              (VObj [ ("target"%string, VStr "es5");
                      ("inlineSourceMap"%string, VBool true);
                      ("inlineSources"%string, VBool true) ]) +:+ "x").
Proof. vm_compute. reflexivity. Qed.

Example process_sample_plain :
  fst (process sample_compiler "x" "a.ts" VNull [] sample_state)
  = Return (JSON_stringify
              (VObj [ ("sourceMap"%string, VBool true);
                      ("target"%string, VStr "es5") ]) +:+ "x").
Proof. vm_compute. reflexivity. Qed.

(** C7, as the specification states it, fails: [process] reads nothing
    but [outputText] from the compiler's result.  When the compiler
    answers a text with a syntax error by returning a result that records
    the error among its diagnostics, as its transpile mode does, [process]
    returns the output text and raises nothing. *)
Lemma process_returns_output_despite_syntax_error :
  exists out : tsc.TranspileOutput,
    reporting_compiler "const = ;"
      {| tsc.compilerOptions := CompilerConfig sample_world; tsc.fileName := "a.ts" |}
    = Return out
    /\ tsc.diagnostics out = ["Variable declaration expected."%string]
    /\ process reporting_compiler "const = ;" "a.ts" VNull []
         (state_after reporting_compiler sample_world [])
       = (Return (tsc.outputText out), state_after reporting_compiler sample_world []).
Proof. eexists. repeat split. Qed.

(** C7, amended. On a path that ends in [.ts] or [.tsx], [process] fails
    exactly when the call of the compiler throws, and then with the
    compiler's error: it raises none of its own, for a syntax error, a
    type error or anything else.  Whenever the compiler returns a result,
    whatever diagnostics the result holds, [process] returns its output
    text. *)
Theorem process_fails_only_as_compiler_does (tm : compiler) (w : World)
    (calls : list call) (src path : string) (config : value) (options : props) :
  is_typescript_path path ->
  (forall out,
     tm src {| tsc.compilerOptions :=
                 effective_config (CompilerConfig w)
                   (truthy (lookup_prop "instrument" options));
               tsc.fileName := path |} = Return out ->
     fst (process tm src path config options (state_after tm w calls))
     = Return (tsc.outputText out))
  /\ (forall e,
        fst (process tm src path config options (state_after tm w calls)) = Throw e
        <-> tm src {| tsc.compilerOptions :=
                            effective_config (CompilerConfig w)
                              (truthy (lookup_prop "instrument" options));
                          tsc.fileName := path |} = Throw e).
Proof.
  intros Hts.
  rewrite (process_outcome tm _ _ _ _ _ _ (state_after_config tm w calls) Hts).
  split.
  - intros out ->. reflexivity.
  - intros e. destruct (tm src _); simpl; split; congruence.
Qed.

Lemma process_fails_only_as_compiler_does_witness :
  (forall out,
     reporting_compiler "const = ;"
       {| tsc.compilerOptions := effective_config (CompilerConfig sample_world) false;
          tsc.fileName := "a.ts" |} = Return out ->
     fst (process reporting_compiler "const = ;" "a.ts" VNull []
            (state_after reporting_compiler sample_world []))
     = Return (tsc.outputText out))
  /\ (forall e,
        fst (process reporting_compiler "const = ;" "a.ts" VNull []
               (state_after reporting_compiler sample_world [])) = Throw e
        <-> reporting_compiler "const = ;"
              {| tsc.compilerOptions := effective_config (CompilerConfig sample_world) false;
                 tsc.fileName := "a.ts" |} = Throw e).
Proof.
  apply (process_fails_only_as_compiler_does reporting_compiler sample_world []
           "const = ;" "a.ts" VNull []).
  left. exists "a"%string. reflexivity.
Defined.

(** With a compiler that throws, the error reaches the caller. *)
Example process_sample_throws :
  fst (process sample_compiler EmptyString "a.ts" VNull [] sample_state)
  = Throw (Error "Declaration or statement expected").
Proof. vm_compute. reflexivity. Qed.

(** ** The process-wide configuration *)

(** C6. Loading the module never fails.  Afterwards every call of
    [getCacheKey] returns a key, and [process] fails only with an error
    the compiler raised.  When the project file is missing, fails to load,
    or holds nothing under [compilerOptions], the configuration is the
    default [{ module: CommonJS, jsx: React }], then and after any calls. *)
Theorem loadModule_total_with_default (tm : compiler) (w : World) :
  fst (loadModule w) = Return tt
  /\ (forall calls fileData filePath configStr options,
        exists key : string,
          fst (getCacheKey fileData filePath configStr options (state_after tm w calls))
          = Return key)
  /\ (forall calls src path config options e,
        fst (process tm src path config options (state_after tm w calls)) = Throw e ->
        exists o, tm src o = Throw e)
  /\ (no_project_config w ->
      forall calls,
        current_config (state_after tm w calls)
        = Some (VObj [ ("module"%string, VNum tsc.ModuleKind.CommonJS);
                       ("jsx"%string, VNum tsc.JsxEmit.React) ])).
Proof.
  split; [apply loadModule_returns|]. split; [|split].
  - intros calls fileData filePath configStr options. eexists.
    now rewrite (getCacheKey_run _ _ _ _ _ _ (state_after_config tm w calls)).
  - intros calls src path config options e.
    destruct (endsWith path ".ts" || endsWith path ".tsx") eqn:Htest.
    + apply typescript_path_test in Htest.
      rewrite (process_outcome tm _ _ _ _ _ _ (state_after_config tm w calls) Htest).
      destruct (tm src _) eqn:Hout; simpl; [discriminate|].
      intros [= ->]. eauto.
    + now rewrite (process_passthrough tm _ _ _ _ _ Htest).
  - intros Hno calls. rewrite state_after_config. f_equal.
    unfold CompilerConfig.
    destruct Hno as [-> | [[e ->] | (tsconfig & -> & ->)]]; reflexivity.
Qed.

Lemma loadModule_total_with_default_witness :
  current_config (state_after sample_compiler bare_world []) = Some default_compilerConfig
  /\ current_config (state_after sample_compiler broken_world []) = Some default_compilerConfig
  /\ current_config
       (state_after sample_compiler
          {| own_source := sample_source;
             tsconfig_json := Some (Return (VObj [("extends"%string, VStr "./base")])) |}
          [])
     = Some default_compilerConfig.
Proof.
  split; [|split].
  - apply (loadModule_total_with_default sample_compiler bare_world).
    left. reflexivity.
  - apply (loadModule_total_with_default sample_compiler broken_world).
    right. left. eexists. reflexivity.
  - apply (loadModule_total_with_default sample_compiler
             {| own_source := sample_source;
                tsconfig_json := Some (Return (VObj [("extends"%string, VStr "./base")])) |}).
    right. right. eexists. split; reflexivity.
Defined.

(** C8. No sequence of calls changes the variable [compilerConfig] or the
    configuration it refers to.  In particular a coverage run works on a
    fresh object: the configuration is the same after it, and when a call
    without [instrument] follows, the compiler is handed the original
    configuration, [sourceMap] included. *)
Theorem compilerConfig_never_mutated (tm : compiler) (w : World) (calls : list call) :
  compilerConfig (state_after tm w calls) = compilerConfig (state_after tm w [])
  /\ current_config (state_after tm w calls) = current_config (state_after tm w [])
  /\ heap (state_after tm w []) `prefix_of` heap (state_after tm w calls)
  /\ forall src path config o_cov src' path' config' o_plain,
       truthy (lookup_prop "instrument" o_cov) = true ->
       truthy (lookup_prop "instrument" o_plain) = false ->
       is_typescript_path path' ->
       current_config (snd (process tm src path config o_cov (state_after tm w calls)))
       = current_config (state_after tm w [])
       /\ fst (process tm src' path' config' o_plain
                 (snd (process tm src path config o_cov (state_after tm w calls))))
          = output_of (tm src' {| tsc.compilerOptions := CompilerConfig w;
                                  tsc.fileName := path' |}).
Proof.
  pose proof (state_after_config tm w calls) as Hc.
  pose proof (state_after_config tm w []) as Hc0.
  destruct (run_frame tm calls _ _ (loadModule_config w)) as (_ & _ & Hv & Hp).
  split; [exact Hv|]. split; [congruence|]. split; [exact Hp|].
  intros src path config o_cov src' path' config' o_plain Hcov Hplain Hts.
  destruct (exec_frame tm (CallProcess src path config o_cov) _ _ Hc) as (Hc' & _).
  simpl in Hc'. split; [congruence|].
  apply typescript_path_test in Hts.
  now rewrite (process_plain tm _ _ _ _ _ _ Hc' Hts Hplain).
Qed.

Lemma compilerConfig_never_mutated_witness :
  current_config
    (snd (process sample_compiler "x" "a.tsx" VNull [("instrument"%string, VBool true)]
            (state_after sample_compiler sample_world [])))
  = current_config (state_after sample_compiler sample_world [])
  /\ fst (process sample_compiler "y" "b.ts" VNull [("instrument"%string, VBool false)]
            (snd (process sample_compiler "x" "a.tsx" VNull
                    [("instrument"%string, VBool true)]
                    (state_after sample_compiler sample_world []))))
     = output_of (sample_compiler "y"
                    {| tsc.compilerOptions := CompilerConfig sample_world;
                       tsc.fileName := "b.ts" |}).
Proof.
  apply (compilerConfig_never_mutated sample_compiler sample_world []).
  - reflexivity.
  - reflexivity.
  - left. exists "b"%string. reflexivity.
Defined.

(** C9. The options record matters only through the truth of its
    [instrument] property: two records that agree on it give the same key
    and the same [process] outcome, store included, whatever else they
    hold. *)
Theorem options_matter_only_through_instrument (tm : compiler)
    (fileData filePath configStr src path : string) (config : value)
    (o1 o2 : props) (st : ModuleState) :
  truthy (lookup_prop "instrument" o1) = truthy (lookup_prop "instrument" o2) ->
  getCacheKey fileData filePath configStr o1 st
    = getCacheKey fileData filePath configStr o2 st
  /\ process tm src path config o1 st = process tm src path config o2 st.
Proof.
  intros H. unfold getCacheKey, process. rewrite H. split; reflexivity.
Qed.

Lemma options_matter_only_through_instrument_witness :
  getCacheKey "a" "a.ts" "{}"
    [("instrument"%string, VStr "yes"); ("rootDir"%string, VStr "/app")] sample_state
    = getCacheKey "a" "a.ts" "{}" [("instrument"%string, VBool true)] sample_state
  /\ process sample_compiler "a" "a.ts" VNull
       [("instrument"%string, VStr "yes"); ("rootDir"%string, VStr "/app")] sample_state
     = process sample_compiler "a" "a.ts" VNull [("instrument"%string, VBool true)]
         sample_state.
Proof.
  apply options_matter_only_through_instrument. reflexivity.
Defined.

(** C10. When the project file loads and holds a value under
    [compilerOptions], that value becomes the process-wide configuration
    as it is when it is truthy, be it an object, a string or a number; when
    it is falsy ([null], [false], [0] or the empty string) the
    configuration is the default. *)
Theorem compilerOptions_adopted_when_truthy (w : World) (tsconfig o : value) :
  tsconfig_json w = Some (Return tsconfig) ->
  getProp tsconfig "compilerOptions" = Some o ->
  current_config (snd (loadModule w))
  = Some (if ToBoolean o then o else default_compilerConfig)
  /\ (ToBoolean o = false
      <-> o = VNull \/ o = VBool false \/ o = VNum 0 \/ o = VStr EmptyString).
Proof.
  intros Hw Ho. split.
  - rewrite loadModule_config. unfold CompilerConfig. now rewrite Hw, Ho.
  - split.
    + destruct o as [|[]|n| |[|c s]| |]; simpl; try discriminate; auto.
      intros Hn. apply negb_false_iff, Z.eqb_eq in Hn. subst. auto.
    + intros [-> | [-> | [-> | ->]]]; reflexivity.
Qed.

Lemma compilerOptions_adopted_when_truthy_witness :
  (current_config
     (snd (loadModule {| own_source := sample_source;
                         tsconfig_json := Some (Return (VObj [("compilerOptions"%string,
                                                                VStr "es5")])) |}))
   = Some (VStr "es5"))
  /\ (current_config
        (snd (loadModule {| own_source := sample_source;
                            tsconfig_json := Some (Return (VObj [("compilerOptions"%string,
                                                                   VNum 0)])) |}))
      = Some default_compilerConfig).
Proof.
  split.
  - apply (compilerOptions_adopted_when_truthy
             {| own_source := sample_source;
                tsconfig_json := Some (Return (VObj [("compilerOptions"%string,
                                                       VStr "es5")])) |}
             (VObj [("compilerOptions"%string, VStr "es5")]) (VStr "es5"));
      reflexivity.
  - apply (compilerOptions_adopted_when_truthy
             {| own_source := sample_source;
                tsconfig_json := Some (Return (VObj [("compilerOptions"%string,
                                                       VNum 0)])) |}
             (VObj [("compilerOptions"%string, VNum 0)]) (VNum 0));
      reflexivity.
Defined.

(** * Properties of the webpack configuration *)

(** ** The matcher finds exactly the matches *)

Lemma Matches_shorter r p q :
  Matches r p q -> (String.length (snd q) <= String.length (snd p))%nat.
Proof. induction 1; simpl in *; lia. Qed.

Lemma star_loop_sound {A} (r : regex) (k : position -> option A) :
  (forall p (k' : position -> option A) x, matcher r p k' = Some x ->
                  exists q, Matches r p q /\ k' q = Some x) ->
  forall fuel p x,
    star_loop (matcher r) k fuel p = Some x ->
    exists q, Matches (Star r) p q /\ k q = Some x.
Proof.
  intros IHr. induction fuel as [|fuel IH]; intros p x H; simpl in H.
  - exists p. split; [constructor | exact H].
  - destruct (matcher r p _) as [y|] eqn:Hstep.
    + injection H as ->.
      destruct (IHr _ _ _ Hstep) as (q & Hq & Hk).
      destruct (String.length (snd q) <? String.length (snd p))%nat eqn:Hlt;
        [|discriminate].
      apply Nat.ltb_lt in Hlt.
      destruct (IH _ _ Hk) as (q' & Hq' & Hk').
      exists q'. split; [eapply MStarStep; eassumption | exact Hk'].
    + exists p. split; [constructor | exact H].
Qed.

Lemma matcher_sound {A} (r : regex) :
  forall p (k : position -> option A) x,
    matcher r p k = Some x -> exists q, Matches r p q /\ k q = Some x.
Proof.
  induction r as [| c | | r1 IH1 r2 IH2 | r1 IH1 r2 IH2 | r IH | |];
    intros [b s] k x H; simpl in H.
  - exists (b, s). split; [constructor | exact H].
  - destruct s as [|c' rest]; [discriminate|].
    destruct (Ascii.eqb c c') eqn:E; [|discriminate].
    apply Ascii.eqb_eq in E. subst c'.
    exists (false, rest). split; [constructor | exact H].
  - destruct s as [|c' rest]; [discriminate|].
    destruct (is_line_terminator c') eqn:E; [discriminate|].
    exists (false, rest). split; [now constructor | exact H].
  - destruct (IH1 _ _ _ H) as (q & Hq & Hk).
    destruct (IH2 _ _ _ Hk) as (q' & Hq' & Hk').
    exists q'. split; [econstructor; eassumption | exact Hk'].
  - destruct (matcher r1 (b, s) k) as [y|] eqn:E.
    + injection H as ->. destruct (IH1 _ _ _ E) as (q & Hq & Hk).
      exists q. split; [now apply MAltL | exact Hk].
    + destruct (IH2 _ _ _ H) as (q & Hq & Hk).
      exists q. split; [now apply MAltR | exact Hk].
  - eapply star_loop_sound; eassumption.
  - destruct b; [|discriminate].
    exists (true, s). split; [constructor | exact H].
  - destruct s; [|discriminate].
    exists (b, EmptyString). split; [constructor | exact H].
Qed.

Lemma matcher_complete_fuel {A} r p q :
  Matches r p q ->
  forall (k : position -> option A) x,
    k q = Some x ->
    (exists y, matcher r p k = Some y)
    /\ (forall r1 fuel, r = Star r1 -> (String.length (snd p) <= fuel)%nat ->
                        exists y, star_loop (matcher r1) k fuel p = Some y).
Proof.
  induction 1 as [p | c b rest | c b rest Hc | r1 r2 p q p' H1 IH1 H2 IH2
                  | r1 r2 p p' H1 IH1 | r1 r2 p p' H1 IH1
                  | r p | r p q p' H1 IH1 Hlt H2 IH2 | s | b];
    intros k x Hk.
  - split; [now exists x | discriminate].
  - split; [|discriminate]. exists x. simpl. now rewrite Ascii.eqb_refl.
  - split; [|discriminate]. exists x. simpl. now rewrite Hc.
  - split; [|discriminate]. simpl.
    destruct (IH2 k x Hk) as [[y Hy] _].
    destruct (IH1 (fun q => matcher r2 q k) y Hy) as [Hz _]. exact Hz.
  - split; [|discriminate]. simpl.
    destruct (IH1 k x Hk) as [[y Hy] _]. rewrite Hy. now exists y.
  - split; [|discriminate]. simpl.
    destruct (matcher r1 p k) as [y|]; [now exists y|].
    destruct (IH1 k x Hk) as [Hy _]. exact Hy.
  - assert (Hloop : forall fuel, exists y, star_loop (matcher r) k fuel p = Some y).
    { intros [|fuel]; simpl; [now exists x|].
      destruct (matcher r p _) as [y|]; [now exists y | now exists x]. }
    split; [apply Hloop|]. intros r1 fuel [= <-] _. apply Hloop.
  - assert (Hloop : forall fuel, (String.length (snd p) <= fuel)%nat ->
                                 exists y, star_loop (matcher r) k fuel p = Some y).
    { intros fuel Hfuel. destruct fuel as [|fuel]; [lia|]. simpl.
      destruct (IH2 k x Hk) as [_ Hq].
      destruct (Hq r fuel eq_refl ltac:(lia)) as [y Hy].
      destruct (IH1 (fun q0 =>
                       if (String.length (snd q0) <? String.length (snd p))%nat
                       then star_loop (matcher r) k fuel q0 else None) y) as [[z Hz] _].
      { apply Nat.ltb_lt in Hlt. now rewrite Hlt. }
      rewrite Hz. now exists z. }
    split; [apply Hloop; lia|]. intros r1 fuel [= <-] Hfuel. now apply Hloop.
  - split; [now exists x | discriminate].
  - split; [now exists x | discriminate].
Qed.

Lemma matcher_complete {A} r p q (k : position -> option A) x :
  Matches r p q -> k q = Some x -> exists y, matcher r p k = Some y.
Proof. intros H Hk. now destruct (matcher_complete_fuel r p q H k x Hk). Qed.

Lemma search_sound r : forall s at_start before after,
  search r at_start s = Some (before, after) ->
  exists t q, s = before +:+ t
              /\ Matches r (flag_after at_start before, t) q /\ snd q = after.
Proof.
  induction s as [|c s IH]; intros at_start before after H; simpl in H.
  - destruct (matcher r (at_start, EmptyString) _) as [y|] eqn:E; [|discriminate].
    injection H as <- <-. destruct (matcher_sound _ _ _ _ E) as (q & Hq & [= <-]).
    exists EmptyString, q. auto.
  - destruct (matcher r (at_start, String c s) _) as [y|] eqn:E.
    + injection H as <- <-. destruct (matcher_sound _ _ _ _ E) as (q & Hq & [= <-]).
      exists (String c s), q. auto.
    + destruct (search r false s) as [[b a]|] eqn:Es; [|discriminate].
      injection H as <- <-.
      destruct (IH _ _ _ Es) as (t & q & -> & Hq & Ha).
      exists t, q. repeat split; try assumption.
      now destruct b.
Qed.

Lemma search_complete r : forall before at_start t q,
  Matches r (flag_after at_start before, t) q ->
  exists found, search r at_start (before +:+ t) = Some found.
Proof.
  induction before as [|c before IH]; intros at_start t q H; simpl in H.
  - destruct (matcher_complete r _ _ (fun q => Some (snd q)) _ H eq_refl) as [y Hy].
    destruct t; simpl; rewrite Hy; eauto.
  - change (String c before +:+ t) with (String c (before +:+ t)). simpl.
    destruct (matcher r _ _); [eauto|].
    destruct (IH false t q) as [[b a] Hs].
    { now destruct before. }
    rewrite Hs. eauto.
Qed.

(** The match that [search] reports is the leftmost one. *)
Lemma search_leftmost r : forall s at_start before after,
  search r at_start s = Some (before, after) ->
  forall pre t q, s = pre +:+ t ->
                  Matches r (flag_after at_start pre, t) q ->
                  (String.length before <= String.length pre)%nat.
Proof.
  induction s as [|c s IH]; intros at_start before after H pre t q Hs Hm; simpl in H.
  - destruct (matcher r _ _); [|discriminate]. injection H as <- <-. simpl. lia.
  - destruct (matcher r (at_start, String c s) _) as [y|] eqn:E.
    + injection H as <- <-. simpl. lia.
    + destruct (search r false s) as [[b a]|] eqn:Es; [|discriminate].
      injection H as <- <-.
      destruct pre as [|c' pre].
      * change (String c s = t) in Hs. simpl in Hm. subst t.
        destruct (matcher_complete r _ _ (fun q => Some (snd q)) _ Hm eq_refl) as [y Hy].
        congruence.
      * injection Hs as <- ->. simpl.
        apply le_n_S. eapply (IH false); [exact Es | reflexivity |].
        destruct pre; exact Hm.
Qed.

Lemma RegExp_test_spec r s :
  RegExp_test r s = true
  <-> exists before t q, s = before +:+ t /\ Matches r (flag_after true before, t) q.
Proof.
  unfold RegExp_test. split.
  - destruct (search r true s) as [[b a]|] eqn:E; [|discriminate]. intros _.
    destruct (search_sound _ _ _ _ _ E) as (t & q & Hs & Hq & _). eauto.
  - intros (before & t & q & -> & Hq).
    destruct (search_complete r before true t q Hq) as [found ->]. reflexivity.
Qed.

(** ** Literals and suffixes *)

Lemma append_empty_r (s : string) : s +:+ EmptyString = s.
Proof. induction s as [|c s IH]; [reflexivity|]. change (String c (s +:+ EmptyString) = String c s). now rewrite IH. Qed.

Lemma append_assoc (a b c : string) : (a +:+ b) +:+ c = a +:+ (b +:+ c).
Proof.
  induction a as [|x a IH]; [reflexivity|].
  change (String x ((a +:+ b) +:+ c) = String x (a +:+ (b +:+ c))). now rewrite IH.
Qed.

Lemma Matches_lit_intro (s : string) (b : bool) (rest : string) :
  Matches (lit s) (b, s +:+ rest) (flag_after b s, rest).
Proof.
  revert b. induction s as [|c s IH]; intros b.
  - apply MEps.
  - change (Matches (Seq (Chr c) (lit s)) (b, String c (s +:+ rest)) (false, rest)).
    eapply MSeq; [apply MChr|].
    specialize (IH false). now destruct s.
Qed.

Lemma Matches_lit_inv (s : string) (b : bool) (t : string) (q : position) :
  Matches (lit s) (b, t) q -> t = s +:+ snd q /\ fst q = flag_after b s.
Proof.
  revert b t. induction s as [|c s IH]; intros b t H.
  - inversion H; subst. auto.
  - change (lit (String c s)) with (Seq (Chr c) (lit s)) in H.
    inversion H as [| | | r1 r2 p q0 p' H1 H2 | | | | | |]; subst.
    inversion H1; subst.
    destruct (IH _ _ H2) as [-> Hf].
    split; [reflexivity|]. rewrite Hf. now destruct s.
Qed.

Lemma Matches_AtEnd_inv p q : Matches AtEnd p q -> snd p = EmptyString /\ q = p.
Proof. inversion 1; subst; auto. Qed.

(** A literal followed by [$] tests for a suffix. *)
Lemma test_suffix (ext s : string) :
  RegExp_test (Seq (lit ext) AtEnd) s = true <-> ends_with s ext.
Proof.
  rewrite RegExp_test_spec. split.
  - intros (before & t & q & -> & H).
    inversion H as [| | | r1 r2 p q0 p' H1 H2 | | | | | |]; subst.
    destruct q0 as [b0 t0].
    destruct (Matches_lit_inv _ _ _ _ H1) as [-> _].
    destruct (Matches_AtEnd_inv _ _ H2) as [Ht0 _]. simpl in Ht0. subst t0.
    exists before. simpl. now rewrite append_empty_r.
  - intros [stem ->]. exists stem, ext, (flag_after (flag_after true stem) ext, EmptyString).
    split; [reflexivity|].
    eapply MSeq; [|apply MAtEnd].
    rewrite <- (append_empty_r ext) at 2. apply Matches_lit_intro.
Qed.

Lemma ends_with_app (stem s ext : string) : ends_with s ext -> ends_with (stem +:+ s) ext.
Proof. intros [x ->]. exists (stem +:+ x). now rewrite append_assoc. Qed.

(** Two suffixes of one string: the shorter is a suffix of the longer. *)
Lemma ends_with_both (s a b : string) :
  ends_with s a -> ends_with s b ->
  (String.length a <= String.length b)%nat -> ends_with b a.
Proof.
  intros [x Hx] [y Hy] Hlen. subst s. revert y Hy.
  induction x as [|c x IH]; intros y Hy.
  - change (a = y +:+ b) in Hy.
    assert (Hl : String.length a = (String.length y + String.length b)%nat)
      by (rewrite Hy at 1; apply length_append_string).
    destruct y as [|c' y]; [|simpl in Hl; lia].
    exists EmptyString. simpl in Hy. now subst.
  - destruct y as [|c' y].
    + exists (String c x). symmetry. exact Hy.
    + change (String c (x +:+ a) = String c' (y +:+ b)) in Hy.
      injection Hy as _ Hy. exact (IH y Hy).
Qed.

Lemma not_both_suffixes (s a b : string) :
  (String.length a <= String.length b)%nat ->
  endsWith b a = false -> ends_with s a -> ends_with s b -> False.
Proof.
  intros Hlen Hno Ha Hb.
  apply (ends_with_both s a b Ha Hb) in Hlen.
  apply endsWith_spec in Hlen. congruence.
Qed.

Lemma test_suffix_false (ext s : string) :
  ~ ends_with s ext -> RegExp_test (Seq (lit ext) AtEnd) s = false.
Proof.
  intros H. destruct (RegExp_test _ s) eqn:E; [|reflexivity].
  apply test_suffix in E. contradiction.
Qed.

(** ** The hand-written alternatives *)

Lemma Star_Any_all (q : string) :
  printable q = true ->
  forall b, exists b', Matches (Star Any) (b, q) (b', EmptyString).
Proof.
  induction q as [|c q IH]; intros Hp b.
  - exists b. apply MStarStop.
  - change (printable (String c q))
      with ((32 <=? nat_of_ascii c)%nat && (nat_of_ascii c <? 127)%nat && printable q) in Hp.
    apply andb_true_iff in Hp as [Hc Hq].
    apply andb_true_iff in Hc as [Hlo Hhi].
    destruct (IH Hq false) as [b' Hb'].
    exists b'. eapply MStarStep; [apply MAny | simpl; lia | exact Hb'].
    unfold is_line_terminator.
    apply Nat.leb_le in Hlo.
    destruct (Nat.eqb_spec (nat_of_ascii c) 10); [lia|].
    destruct (Nat.eqb_spec (nat_of_ascii c) 13); [lia|]. reflexivity.
Qed.

(** [.] then one of two literals, then an optional query, then [$]. *)
Lemma test_with_query (a b stem query : string) (which : bool) :
  printable query = true ->
  RegExp_test
    (Seq (Chr ".") (Seq (Alt (lit a) (lit b))
                        (Seq (Opt (Seq (Chr "?") (Star Any))) AtEnd)))
    (stem +:+ "." +:+ (if which then a else b) +:+ "?" +:+ query) = true.
Proof.
  intros Hq. apply RegExp_test_spec.
  destruct (Star_Any_all query Hq false) as [b' Hb'].
  exists stem, ("." +:+ (if which then a else b) +:+ "?" +:+ query), (b', EmptyString).
  split; [reflexivity|].
  eapply MSeq; [apply MChr|].
  destruct which.
  - eapply MSeq; [apply MAltL, Matches_lit_intro|].
    eapply MSeq; [|apply MAtEnd].
    apply MAltL. eapply MSeq; [apply MChr | exact Hb'].
  - eapply MSeq; [apply MAltR, Matches_lit_intro|].
    eapply MSeq; [|apply MAtEnd].
    apply MAltL. eapply MSeq; [apply MChr | exact Hb'].
Qed.

Lemma test_without_query (a b s : string) :
  ends_with s ("." +:+ a) \/ ends_with s ("." +:+ b) ->
  RegExp_test
    (Seq (Chr ".") (Seq (Alt (lit a) (lit b))
                        (Seq (Opt (Seq (Chr "?") (Star Any))) AtEnd))) s = true.
Proof.
  intros H. apply RegExp_test_spec.
  destruct H as [[stem ->] | [stem ->]].
  - exists stem, ("." +:+ a), (flag_after false a, EmptyString). split; [reflexivity|].
    eapply MSeq; [apply MChr|]. eapply MSeq.
    { apply MAltL. rewrite <- (append_empty_r a) at 2. apply Matches_lit_intro. }
    eapply MSeq; [apply MAltR, MEps | apply MAtEnd].
  - exists stem, ("." +:+ b), (flag_after false b, EmptyString). split; [reflexivity|].
    eapply MSeq; [apply MChr|]. eapply MSeq.
    { apply MAltR. rewrite <- (append_empty_r b) at 2. apply Matches_lit_intro. }
    eapply MSeq; [apply MAltR, MEps | apply MAtEnd].
Qed.

(** [.] then one of two literals, then [$]. *)
Lemma test_two_suffixes (a b s : string) :
  RegExp_test (Seq (Chr ".") (Seq (Alt (lit a) (lit b)) AtEnd)) s = true
  <-> ends_with s ("." +:+ a) \/ ends_with s ("." +:+ b).
Proof.
  rewrite RegExp_test_spec. split.
  - intros (before & t & q & -> & H).
    inversion H as [| | | r1 r2 p q0 p' H1 H2 | | | | | |]; subst.
    inversion H1; subst.
    inversion H2 as [| | | r1 r2 p q1 p' H3 H4 | | | | | |]; subst.
    destruct q1 as [b1 t1].
    destruct (Matches_AtEnd_inv _ _ H4) as [Ht1 _]. simpl in Ht1. subst t1.
    inversion H3; subst.
    + left. exists before.
      match goal with Hm : Matches (lit a) _ _ |- _ =>
        destruct (Matches_lit_inv _ _ _ _ Hm) as [-> _] end.
      simpl. now rewrite append_empty_r.
    + right. exists before.
      match goal with Hm : Matches (lit b) _ _ |- _ =>
        destruct (Matches_lit_inv _ _ _ _ Hm) as [-> _] end.
      simpl. now rewrite append_empty_r.
  - intros [[stem ->] | [stem ->]].
    + exists stem, ("." +:+ a), (flag_after false a, EmptyString). split; [reflexivity|].
      eapply MSeq; [apply MChr|]. eapply MSeq; [|apply MAtEnd].
      apply MAltL. rewrite <- (append_empty_r a) at 2. apply Matches_lit_intro.
    + exists stem, ("." +:+ b), (flag_after false b, EmptyString). split; [reflexivity|].
      eapply MSeq; [apply MChr|]. eapply MSeq; [|apply MAtEnd].
      apply MAltR. rewrite <- (append_empty_r b) at 2. apply Matches_lit_intro.
Qed.

Lemma test_jpeg (s : string) :
  RegExp_test Storybook.re_jpeg s = true
  <-> ends_with s ".jpg" \/ ends_with s ".jpeg".
Proof.
  unfold Storybook.re_jpeg. rewrite RegExp_test_spec. split.
  - intros (before & t & q & -> & H).
    inversion H as [| | | r1 r2 p q0 p' H1 H2 | | | | | |]; subst.
    destruct q0 as [b0 t0].
    destruct (Matches_lit_inv ".jp" _ _ _ H1) as [Ht _]. simpl in Ht. subst t.
    inversion H2 as [| | | r1 r2 p q1 p' H3 H4 | | | | | |]; subst.
    inversion H4 as [| | | r1 r2 p q2 p' H5 H6 | | | | | |]; subst.
    destruct (Matches_AtEnd_inv _ _ H6) as [Hq2 ->].
    inversion H3 as [| | | | r1 r2 p p' H7 | r1 r2 p p' H7 | | | |]; subst.
    + inversion H7; subst. inversion H5; subst. simpl in Hq2. subst.
      right. exists before. reflexivity.
    + inversion H7; subst. inversion H5; subst. simpl in Hq2. subst.
      left. exists before. reflexivity.
  - intros [[stem ->] | [stem ->]].
    + exists stem, ".jpg"%string, (false, EmptyString). split; [reflexivity|].
      eapply MSeq; [apply (Matches_lit_intro ".jp" _ "g")|].
      eapply MSeq; [apply MAltR, MEps|].
      eapply MSeq; [apply MChr | apply MAtEnd].
    + exists stem, ".jpeg"%string, (false, EmptyString). split; [reflexivity|].
      eapply MSeq; [apply (Matches_lit_intro ".jp" _ "eg")|].
      eapply MSeq; [apply MAltL, MChr|].
      eapply MSeq; [apply MChr | apply MAtEnd].
Qed.

(** ** Which rule handles which resource *)

Ltac clash H Ho :=
  first [ solve [ refine (not_both_suffixes _ _ _ _ _ H Ho); [simpl; lia | reflexivity] ]
        | solve [ refine (not_both_suffixes _ _ _ _ _ Ho H); [simpl; lia | reflexivity] ] ].

Ltac other_suffix H :=
  apply test_suffix_false; let Ho := fresh "Ho" in intros Ho; clash H Ho.

Ltac other_suffixes H :=
  let Ho := fresh "Ho" in intros Ho; clash H Ho.

Lemma test_two_suffixes_false (a b s : string) :
  ~ ends_with s ("." +:+ a) -> ~ ends_with s ("." +:+ b) ->
  RegExp_test (Seq (Chr ".") (Seq (Alt (lit a) (lit b)) AtEnd)) s = false.
Proof.
  intros Ha Hb. destruct (RegExp_test _ s) eqn:E; [|reflexivity].
  apply test_two_suffixes in E. tauto.
Qed.

Lemma test_jpeg_false (s : string) :
  ~ ends_with s ".jpg" -> ~ ends_with s ".jpeg" -> RegExp_test Storybook.re_jpeg s = false.
Proof.
  intros Ha Hb. destruct (RegExp_test _ s) eqn:E; [|reflexivity].
  apply test_jpeg in E. tauto.
Qed.

Lemma ends_css_of_module (s : string) : ends_with s ".module.css" -> ends_with s ".css".
Proof. intros [stem ->]. exists (stem +:+ ".module"). now rewrite append_assoc. Qed.

Lemma ends_scss_of_module (s : string) : ends_with s ".module.scss" -> ends_with s ".scss".
Proof. intros [stem ->]. exists (stem +:+ ".module"). now rewrite append_assoc. Qed.

Section Dispatch.

Variable require_resolve : string -> string.
Variable paths : Storybook.Paths.

Lemma applies_source_map s :
  Storybook.rule_applies (Storybook.source_map_rule require_resolve paths) s
  = RegExp_test Storybook.re_js s && startsWith s (Storybook.appSrc paths).
Proof. unfold Storybook.rule_applies. simpl. now rewrite andb_true_r. Qed.

Lemma applies_file s :
  Storybook.rule_applies (Storybook.file_rule require_resolve) s
  = negb (RegExp_test Storybook.re_html s
          || (RegExp_test Storybook.re_js_jsx_query s
          || (RegExp_test Storybook.re_ts_tsx_query s
          || (RegExp_test Storybook.re_css s
          || (RegExp_test Storybook.re_scss s
          || (RegExp_test Storybook.re_json s
          || (RegExp_test Storybook.re_bmp s
          || (RegExp_test Storybook.re_gif s
          || (RegExp_test Storybook.re_jpeg s
          || RegExp_test Storybook.re_png s))))))))).
Proof. unfold Storybook.rule_applies. simpl. now rewrite orb_false_r. Qed.

Lemma applies_url s :
  Storybook.rule_applies (Storybook.url_rule require_resolve) s
  = (RegExp_test Storybook.re_bmp s
     || (RegExp_test Storybook.re_gif s
     || (RegExp_test Storybook.re_jpeg s || RegExp_test Storybook.re_png s))).
Proof. unfold Storybook.rule_applies. simpl. now rewrite orb_false_r, !andb_true_r. Qed.

Lemma applies_ts s :
  Storybook.rule_applies (Storybook.ts_rule require_resolve paths) s
  = RegExp_test Storybook.re_ts_tsx s && startsWith s (Storybook.appSrc paths).
Proof. unfold Storybook.rule_applies. simpl. now rewrite andb_true_r. Qed.

Lemma applies_css s :
  Storybook.rule_applies (Storybook.css_rule require_resolve) s
  = RegExp_test Storybook.re_css s && negb (RegExp_test Storybook.re_module_css s).
Proof. unfold Storybook.rule_applies. simpl. now rewrite andb_true_r. Qed.

Lemma applies_module_css s :
  Storybook.rule_applies (Storybook.module_css_rule require_resolve) s
  = RegExp_test Storybook.re_module_css s.
Proof. unfold Storybook.rule_applies. simpl. now rewrite !andb_true_r. Qed.

Lemma applies_scss s :
  Storybook.rule_applies (Storybook.scss_rule require_resolve) s
  = RegExp_test Storybook.re_scss s && negb (RegExp_test Storybook.re_module_scss s).
Proof. unfold Storybook.rule_applies. simpl. now rewrite andb_true_r. Qed.

Lemma applies_module_scss s :
  Storybook.rule_applies (Storybook.module_scss_rule require_resolve) s
  = RegExp_test Storybook.re_module_scss s.
Proof. unfold Storybook.rule_applies. simpl. now rewrite !andb_true_r. Qed.

Lemma handlers_unfold s :
  Storybook.handlers require_resolve paths s
  = (if RegExp_test Storybook.re_js s && startsWith s (Storybook.appSrc paths)
     then [Storybook.source_map_rule require_resolve paths] else [])
    ++ (if Storybook.rule_applies (Storybook.file_rule require_resolve) s
        then [Storybook.file_rule require_resolve] else [])
    ++ (if RegExp_test Storybook.re_bmp s
           || (RegExp_test Storybook.re_gif s
           || (RegExp_test Storybook.re_jpeg s || RegExp_test Storybook.re_png s))
        then [Storybook.url_rule require_resolve] else [])
    ++ (if RegExp_test Storybook.re_ts_tsx s && startsWith s (Storybook.appSrc paths)
        then [Storybook.ts_rule require_resolve paths] else [])
    ++ (if RegExp_test Storybook.re_css s && negb (RegExp_test Storybook.re_module_css s)
        then [Storybook.css_rule require_resolve] else [])
    ++ (if RegExp_test Storybook.re_module_css s
        then [Storybook.module_css_rule require_resolve] else [])
    ++ (if RegExp_test Storybook.re_scss s && negb (RegExp_test Storybook.re_module_scss s)
        then [Storybook.scss_rule require_resolve] else [])
    ++ (if RegExp_test Storybook.re_module_scss s
        then [Storybook.module_scss_rule require_resolve] else []).
Proof.
  unfold Storybook.handlers, Storybook.rules. cbn [List.filter].
  rewrite applies_source_map, applies_url, applies_ts, applies_css,
    applies_module_css, applies_scss, applies_module_scss.
  repeat match goal with |- context [if ?c then _ else _] => destruct c end;
    reflexivity.
Qed.

End Dispatch.

Lemma ends_with_trans (s a b : string) : ends_with s a -> ends_with a b -> ends_with s b.
Proof. intros [x ->] [y ->]. exists (x +:+ y). now rewrite append_assoc. Qed.

Ltac known_suffix s H :=
  apply (ends_with_trans s _ _ H); apply endsWith_spec; reflexivity.

(** Settle the test of the literal [X] on [s] from a known suffix of [s]. *)
Ltac fact s H X :=
  let F := fresh "F" in
  first
    [ assert (F : RegExp_test (Seq (lit X) AtEnd) s = true)
        by (apply test_suffix; known_suffix s H);
      rewrite ?F; clear F
    | assert (F : RegExp_test (Seq (lit X) AtEnd) s = false) by (other_suffix H);
      rewrite ?F; clear F
    | idtac ].

Ltac two_fact s H a b :=
  let F := fresh "F" in
  first
    [ assert (F : RegExp_test (Seq (Chr ".") (Seq (Alt (lit a) (lit b)) AtEnd)) s = true)
        by (apply test_two_suffixes; first [left; known_suffix s H | right; known_suffix s H]);
      rewrite ?F; clear F
    | assert (F : RegExp_test (Seq (Chr ".") (Seq (Alt (lit a) (lit b)) AtEnd)) s = false)
        by (apply test_two_suffixes_false; other_suffixes H);
      rewrite ?F; clear F
    | idtac ].

Ltac jpeg_fact s H :=
  let F := fresh "F" in
  first
    [ assert (F : RegExp_test Storybook.re_jpeg s = true)
        by (apply test_jpeg; first [left; known_suffix s H | right; known_suffix s H]);
      rewrite ?F; clear F
    | assert (F : RegExp_test Storybook.re_jpeg s = false)
        by (apply test_jpeg_false; other_suffixes H);
      rewrite ?F; clear F
    | idtac ].

Ltac query_fact s H a b :=
  let F := fresh "F" in
  first
    [ assert (F : RegExp_test
                    (Seq (Chr ".") (Seq (Alt (lit a) (lit b))
                                        (Seq (Opt (Seq (Chr "?") (Star Any))) AtEnd))) s = true)
        by (apply test_without_query;
            first [left; known_suffix s H | right; known_suffix s H]);
      rewrite ?F; clear F
    | idtac ].

(** Every test of the rule list on a resource with a known suffix. *)
Ltac all_facts s H :=
  rewrite handlers_unfold, applies_file;
  unfold Storybook.re_js, Storybook.re_html, Storybook.re_css, Storybook.re_scss,
    Storybook.re_json, Storybook.re_bmp, Storybook.re_gif, Storybook.re_png,
    Storybook.re_module_css, Storybook.re_module_scss, Storybook.re_ts_tsx,
    Storybook.re_js_jsx_query, Storybook.re_ts_tsx_query;
  fact s H ".js"%string; fact s H ".html"%string; fact s H ".css"%string;
  fact s H ".scss"%string; fact s H ".json"%string; fact s H ".bmp"%string;
  fact s H ".gif"%string; fact s H ".png"%string;
  fact s H ".module.css"%string; fact s H ".module.scss"%string;
  two_fact s H "ts"%string "tsx"%string; jpeg_fact s H;
  query_fact s H "js"%string "jsx"%string; query_fact s H "ts"%string "tsx"%string;
  rewrite ?orb_true_r, ?orb_false_r, ?andb_false_l, ?andb_true_l; cbn [negb app].

Ltac finish := rewrite ?app_nil_r; reflexivity.

(** ** The rules of the configuration *)

(** X10. TypeScript sources: inside [appSrc] the ts-loader rule and no other
    handles them, outside it no rule does. *)
Theorem typescript_handled_by_ts_loader_only (require_resolve : string -> string)
    (paths : Storybook.Paths) (resource : string) :
  ends_with resource ".ts" \/ ends_with resource ".tsx" ->
  Storybook.handlers require_resolve paths resource
  = if startsWith resource (Storybook.appSrc paths)
    then [Storybook.ts_rule require_resolve paths] else [].
Proof. intros [H | H]; all_facts resource H; finish. Qed.

(** X11. JavaScript sources: inside [appSrc] the source-map rule alone, outside
    it no rule. *)
Theorem javascript_handled_by_source_map_loader_only
    (require_resolve : string -> string) (paths : Storybook.Paths) (resource : string) :
  ends_with resource ".js" ->
  Storybook.handlers require_resolve paths resource
  = if startsWith resource (Storybook.appSrc paths)
    then [Storybook.source_map_rule require_resolve paths] else [].
Proof. intros H; all_facts resource H; finish. Qed.

(** X12. Images go to the url-loader rule and to no other, the file loader
    included. *)
Theorem images_handled_by_url_loader_only (require_resolve : string -> string)
    (paths : Storybook.Paths) (resource : string) :
  ends_with resource ".bmp" \/ ends_with resource ".gif" \/ ends_with resource ".jpg"
  \/ ends_with resource ".jpeg" \/ ends_with resource ".png" ->
  Storybook.handlers require_resolve paths resource = [Storybook.url_rule require_resolve].
Proof. intros [H | [H | [H | [H | H]]]]; all_facts resource H; finish. Qed.

(** X13. Style sheets: a [.css] resource is handled by exactly one rule, the
    css-modules rule when it ends in [.module.css] and the plain rule
    otherwise; likewise for [.scss]. *)
Theorem stylesheets_handled_by_exactly_one_rule (require_resolve : string -> string)
    (paths : Storybook.Paths) (resource : string) :
  (ends_with resource ".css" ->
   Storybook.handlers require_resolve paths resource
   = [ if endsWith resource ".module.css"
       then Storybook.module_css_rule require_resolve
       else Storybook.css_rule require_resolve ])
  /\ (ends_with resource ".scss" ->
      Storybook.handlers require_resolve paths resource
      = [ if endsWith resource ".module.scss"
          then Storybook.module_scss_rule require_resolve
          else Storybook.scss_rule require_resolve ]).
Proof.
  split; intros H.
  - destruct (endsWith resource ".module.css") eqn:E.
    + apply endsWith_spec in E. all_facts resource E. finish.
    + assert (F : RegExp_test (Seq (lit ".module.css") AtEnd) resource = false).
      { apply test_suffix_false. intros Hm. apply endsWith_spec in Hm. congruence. }
      all_facts resource H. rewrite F. finish.
  - destruct (endsWith resource ".module.scss") eqn:E.
    + apply endsWith_spec in E. all_facts resource E. finish.
    + assert (F : RegExp_test (Seq (lit ".module.scss") AtEnd) resource = false).
      { apply test_suffix_false. intros Hm. apply endsWith_spec in Hm. congruence. }
      all_facts resource H. rewrite F. finish.
Qed.

(** X14. Pages, data and JSX sources are left to webpack itself: no rule of
    the list handles them. *)
Theorem html_json_jsx_handled_by_no_rule (require_resolve : string -> string)
    (paths : Storybook.Paths) (resource : string) :
  ends_with resource ".html" \/ ends_with resource ".json" \/ ends_with resource ".jsx" ->
  Storybook.handlers require_resolve paths resource = [].
Proof. intros [H | [H | H]]; all_facts resource H; finish. Qed.

(** X9. When the file loader handles a resource, no other rule does: every
    [test] of the list is covered by the [exclude] list of the file
    loader. *)
Theorem file_loader_never_shares_a_resource (require_resolve : string -> string)
    (paths : Storybook.Paths) (resource : string) :
  Storybook.rule_applies (Storybook.file_rule require_resolve) resource = true ->
  Storybook.handlers require_resolve paths resource = [Storybook.file_rule require_resolve].
Proof.
  intros Happ. rewrite handlers_unfold, Happ.
  rewrite applies_file in Happ. apply negb_true_iff in Happ.
  repeat match type of Happ with
         | _ || _ = false =>
             let F := fresh "F" in apply orb_false_elim in Happ as [F Happ]
         end.
  assert (Fjs : RegExp_test Storybook.re_js resource = false).
  { destruct (RegExp_test Storybook.re_js resource) eqn:E; [|reflexivity].
    apply test_suffix in E.
    assert (RegExp_test Storybook.re_js_jsx_query resource = true)
      by (apply test_without_query; now left).
    congruence. }
  assert (Fts : RegExp_test Storybook.re_ts_tsx resource = false).
  { destruct (RegExp_test Storybook.re_ts_tsx resource) eqn:E; [|reflexivity].
    apply test_two_suffixes in E.
    assert (RegExp_test Storybook.re_ts_tsx_query resource = true)
      by (now apply test_without_query).
    congruence. }
  assert (Fmcss : RegExp_test Storybook.re_module_css resource = false).
  { destruct (RegExp_test Storybook.re_module_css resource) eqn:E; [|reflexivity].
    apply test_suffix, ends_css_of_module, test_suffix in E.
    unfold Storybook.re_css in *. congruence. }
  assert (Fmscss : RegExp_test Storybook.re_module_scss resource = false).
  { destruct (RegExp_test Storybook.re_module_scss resource) eqn:E; [|reflexivity].
    apply test_suffix, ends_scss_of_module, test_suffix in E.
    unfold Storybook.re_scss in *. congruence. }
  rewrite Fjs, Fts, Fmcss, Fmscss.
  repeat match goal with F : RegExp_test _ resource = false |- _ => rewrite F; clear F end.
  reflexivity.
Qed.

Lemma file_loader_never_shares_a_resource_witness :
  Storybook.handlers sample_require_resolve sample_paths "/app/src/logo.svg"
  = [Storybook.file_rule sample_require_resolve].
Proof.
  apply file_loader_never_shares_a_resource. vm_compute. reflexivity.
Defined.

(** X15. Every extension the resolver tries belongs to a resource the file
    loader leaves alone. *)
Theorem resolved_extensions_excluded_from_file_loader
    (require_resolve : string -> string) (extension resource : string) :
  In extension Storybook.extensions ->
  ends_with resource extension ->
  Storybook.rule_applies (Storybook.file_rule require_resolve) resource = false.
Proof.
  intros Hin H. rewrite applies_file.
  unfold Storybook.re_html, Storybook.re_css, Storybook.re_scss, Storybook.re_json,
    Storybook.re_bmp, Storybook.re_gif, Storybook.re_png,
    Storybook.re_js_jsx_query, Storybook.re_ts_tsx_query.
  simpl in Hin.
  destruct Hin as [<- | [<- | [<- | [<- | [<- | []]]]]];
    fact resource H ".json"%string;
    query_fact resource H "js"%string "jsx"%string;
    query_fact resource H "ts"%string "tsx"%string;
    rewrite ?orb_true_r; reflexivity.
Qed.

(** X16. A query string does not bring a source file back to the file loader. *)
Theorem sources_with_query_excluded_from_file_loader
    (require_resolve : string -> string) (stem extension query : string) :
  In extension ["js"; "jsx"; "ts"; "tsx"]%string ->
  printable query = true ->
  Storybook.rule_applies (Storybook.file_rule require_resolve)
    (stem +:+ "." +:+ extension +:+ "?" +:+ query) = false.
Proof.
  intros Hin Hq. rewrite applies_file. simpl in Hin.
  unfold Storybook.re_js_jsx_query, Storybook.re_ts_tsx_query.
  destruct Hin as [<- | [<- | [<- | [<- | []]]]].
  - rewrite (test_with_query "js" "jsx" stem query true Hq).
    rewrite ?orb_true_r. reflexivity.
  - rewrite (test_with_query "js" "jsx" stem query false Hq).
    rewrite ?orb_true_r. reflexivity.
  - rewrite (test_with_query "ts" "tsx" stem query true Hq).
    rewrite ?orb_true_r. reflexivity.
  - rewrite (test_with_query "ts" "tsx" stem query false Hq).
    rewrite ?orb_true_r. reflexivity.
Qed.

(** ** [publicUrl] *)

Lemma slashes_append (n m : nat) : slashes n +:+ slashes m = slashes (n + m).
Proof.
  induction n as [|n IH]; [reflexivity|].
  change (String "/"%char (slashes n +:+ slashes m) = String "/"%char (slashes (n + m))).
  now rewrite IH.
Qed.

Lemma slashes_length (n : nat) : String.length (slashes n) = n.
Proof. induction n as [|n IH]; simpl; congruence. Qed.

Lemma Matches_star_slashes (n : nat) (b : bool) :
  exists b', Matches (Star (Chr "/")) (b, slashes n) (b', EmptyString).
Proof.
  revert b. induction n as [|n IH]; intros b.
  - exists b. apply MStarStop.
  - destruct (IH false) as [b' Hb'].
    exists b'. change (slashes (S n)) with (String "/"%char (slashes n)).
    apply (MStarStep _ _ (false, slashes n)); [apply MChr | simpl; lia | exact Hb'].
Qed.

Lemma Matches_trailing_slashes (n : nat) (b : bool) :
  exists q, Matches Storybook.re_trailing_slashes (b, slashes (S n)) q.
Proof.
  destruct (Matches_star_slashes n false) as [b' Hb'].
  exists (b', EmptyString).
  eapply MSeq; [|apply MAtEnd].
  eapply MSeq; [apply MChr | exact Hb'].
Qed.

Lemma Matches_star_slashes_inv r p q :
  Matches r p q -> r = Star (Chr "/") ->
  exists n, snd p = slashes n +:+ snd q.
Proof.
  induction 1 as [| | | | | | r p | r p q p' H1 _ Hlt H2 IH2 | |];
    intros Hr; try discriminate.
  - exists 0%nat. reflexivity.
  - injection Hr as ->. destruct (IH2 eq_refl) as [n Hn].
    inversion H1; subst. simpl in *. exists (S n). now rewrite Hn.
Qed.

Lemma Matches_trailing_slashes_inv (b : bool) (t : string) (q : position) :
  Matches Storybook.re_trailing_slashes (b, t) q ->
  exists n, t = slashes (S n) /\ snd q = EmptyString.
Proof.
  intros H.
  inversion H as [| | | r1 r2 p q0 p' H1 H2 | | | | | |]; subst.
  destruct (Matches_AtEnd_inv _ _ H2) as [Hq0 ->].
  inversion H1 as [| | | r1 r2 p q1 p' H3 H4 | | | | | |]; subst.
  inversion H3; subst.
  destruct (Matches_star_slashes_inv _ _ _ H4 eq_refl) as [n Hn].
  simpl in Hn. rewrite Hq0, append_empty_r in Hn.
  exists n. split; [now rewrite Hn | exact Hq0].
Qed.

(** X6. [publicUrl] is [publicPath] without its trailing slashes: only
    slashes are removed, all the trailing ones are, and a path without a
    trailing slash is left as it is. *)
Theorem publicUrl_strips_trailing_slashes (storybookBaseConfig : Storybook.Configuration) :
  (exists n, Storybook.output_publicPath storybookBaseConfig
             = Storybook.publicUrl storybookBaseConfig +:+ slashes n)
  /\ ~ ends_with (Storybook.publicUrl storybookBaseConfig) "/"
  /\ (endsWith (Storybook.output_publicPath storybookBaseConfig) "/" = false ->
      Storybook.publicUrl storybookBaseConfig
      = Storybook.output_publicPath storybookBaseConfig).
Proof.
  unfold Storybook.publicUrl, String_replace.
  set (s := Storybook.output_publicPath storybookBaseConfig).
  destruct (search Storybook.re_trailing_slashes true s) as [[before after]|] eqn:E.
  - destruct (search_sound _ _ _ _ _ E) as (t & q & Hs & Hm & Hafter).
    destruct (Matches_trailing_slashes_inv _ _ _ Hm) as (n & -> & Hq).
    rewrite Hq in Hafter. subst after. simpl. rewrite append_empty_r.
    assert (Hno : ~ ends_with before "/").
    { intros [stem ->].
      destruct (Matches_trailing_slashes (S n) (flag_after true stem)) as [q' Hq'].
      pose proof (search_leftmost _ _ _ _ _ E stem (slashes (S (S n))) q') as Hleft.
      rewrite length_append_string in Hleft. simpl in Hleft.
      assert (String.length stem + 1 <= String.length stem)%nat; [|lia].
      apply Hleft; [|exact Hq'].
      rewrite Hs, append_assoc. reflexivity. }
    split; [now exists (S n)|]. split; [exact Hno|].
    intros Hend. exfalso.
    assert (ends_with s "/"); [|apply endsWith_spec in H; congruence].
    rewrite Hs. exists (before +:+ slashes n).
    rewrite append_assoc. f_equal.
    change "/"%string with (slashes 1). rewrite slashes_append.
    f_equal. lia.
  - assert (Hno : ~ ends_with s "/").
    { intros [stem Hs].
      destruct (Matches_trailing_slashes 0 (flag_after true stem)) as [q' Hq'].
      destruct (search_complete _ stem true _ _ Hq') as [found Hfound].
      simpl in Hfound. rewrite <- Hs in Hfound. congruence. }
    split; [exists 0%nat; now rewrite append_empty_r|]. split; [exact Hno | reflexivity].
Qed.

Lemma publicUrl_strips_trailing_slashes_witness :
  Storybook.publicUrl sample_base_config = "/storybook"%string.
Proof.
  apply (proj2 (proj2 (publicUrl_strips_trailing_slashes sample_base_config))).
  reflexivity.
Defined.

Example publicUrl_sample :
  String_replace "/storybook//" Storybook.re_trailing_slashes EmptyString = "/storybook"%string
  /\ String_replace "/" Storybook.re_trailing_slashes EmptyString = EmptyString
  /\ String_replace "/a/b" Storybook.re_trailing_slashes EmptyString = "/a/b"%string.
Proof. repeat split. Qed.

(** ** [resolve.modules] *)

Lemma String_split_nonempty (sep : ascii) (s : string) : String_split sep s <> [].
Proof.
  induction s as [|c s IH]; simpl; [discriminate|].
  destruct (Ascii.eqb c sep); [discriminate|].
  destruct (String_split sep s); [contradiction | discriminate].
Qed.

Lemma String_split_no_separator (sep : ascii) (s : string) :
  Forall (fun piece => occurs sep piece = false) (String_split sep s).
Proof.
  induction s as [|c s IH]; simpl.
  - repeat constructor.
  - destruct (Ascii.eqb c sep) eqn:E.
    + constructor; [reflexivity | exact IH].
    + destruct (String_split sep s) as [|piece pieces]; [repeat constructor; simpl|].
      * rewrite Ascii.eqb_sym, E. reflexivity.
      * inversion IH; subst. constructor; [|assumption].
        simpl. rewrite Ascii.eqb_sym, E. assumption.
Qed.

Lemma String_split_piece (sep : ascii) (piece : string) :
  occurs sep piece = false -> String_split sep piece = [piece].
Proof.
  induction piece as [|c piece IH]; simpl; intros H; [reflexivity|].
  apply orb_false_iff in H as [Hc Hrest].
  rewrite Ascii.eqb_sym, Hc, (IH Hrest). reflexivity.
Qed.

Lemma String_split_append (sep : ascii) (piece rest : string) :
  occurs sep piece = false ->
  String_split sep (piece +:+ String sep rest) = piece :: String_split sep rest.
Proof.
  induction piece as [|c piece IH]; intros H.
  - simpl. now rewrite Ascii.eqb_refl.
  - simpl in H. apply orb_false_iff in H as [Hc Hrest].
    change (String c piece +:+ String sep rest) with (String c (piece +:+ String sep rest)).
    simpl. rewrite Ascii.eqb_sym, Hc, (IH Hrest). reflexivity.
Qed.

Lemma String_split_concat (sep : ascii) (pieces : list string) :
  pieces <> [] ->
  Forall (fun piece => occurs sep piece = false) pieces ->
  String_split sep (String.concat (String sep EmptyString) pieces) = pieces.
Proof.
  induction pieces as [|p pieces IH]; intros Hne Hall; [contradiction|].
  inversion Hall as [|? ? Hp Hrest]; subst.
  destruct pieces as [|p' pieces].
  - simpl. now apply String_split_piece.
  - change (String.concat (String sep EmptyString) (p :: p' :: pieces))
      with (p +:+ String sep (String.concat (String sep EmptyString) (p' :: pieces))).
    rewrite String_split_append by assumption.
    f_equal. apply IH; [discriminate | assumption].
Qed.

Lemma concat_String_split (sep : ascii) (s : string) :
  String.concat (String sep EmptyString) (String_split sep s) = s.
Proof.
  induction s as [|c s IH]; [reflexivity|]. simpl.
  destruct (Ascii.eqb c sep) eqn:E.
  - apply Ascii.eqb_eq in E. subst c.
    pose proof (String_split_nonempty sep s) as Hne.
    destruct (String_split sep s) as [|p ps]; [contradiction|].
    change (String.concat (String sep EmptyString) (EmptyString :: p :: ps))
      with (String sep (String.concat (String sep EmptyString) (p :: ps))).
    now rewrite IH.
  - pose proof (String_split_nonempty sep s) as Hne.
    destruct (String_split sep s) as [|p ps]; [contradiction|].
    rewrite <- IH. destruct ps; reflexivity.
Qed.

(** X7. The module directories: [node_modules] first, the application's own
    second, then the entries of [NODE_PATH] in their order; none of those
    is empty or holds the delimiter, and joined by the delimiter the
    pieces [NODE_PATH] was cut into give [NODE_PATH] back. *)
Theorem modules_from_NODE_PATH (path_delimiter : ascii) (paths : Storybook.Paths)
    (NODE_PATH : string) :
  exists entries,
    Storybook.modules path_delimiter paths NODE_PATH
    = "node_modules"%string :: Storybook.appNodeModules paths :: entries
    /\ entries = filter_Boolean (String_split path_delimiter NODE_PATH)
    /\ Forall (fun entry => entry <> EmptyString /\ occurs path_delimiter entry = false)
         entries
    /\ String.concat (String path_delimiter EmptyString)
         (String_split path_delimiter NODE_PATH) = NODE_PATH.
Proof.
  eexists. split; [reflexivity|]. split; [reflexivity|]. split.
  - unfold filter_Boolean.
    pose proof (String_split_no_separator path_delimiter NODE_PATH) as Hall.
    induction Hall as [|p ps Hp _ IH]; simpl; [constructor|].
    destruct p; [exact IH|]. constructor; [split; [discriminate | exact Hp] | exact IH].
  - apply concat_String_split.
Qed.

(** X8. Whatever list of directories [NODE_PATH] was made from by joining
    with the delimiter, the configuration gets the non-empty ones back,
    in order, after the two fixed entries. *)
Theorem modules_of_joined_directories (path_delimiter : ascii)
    (paths : Storybook.Paths) (directories : list string) :
  Forall (fun d => occurs path_delimiter d = false) directories ->
  Storybook.modules path_delimiter paths
    (String.concat (String path_delimiter EmptyString) directories)
  = "node_modules"%string :: Storybook.appNodeModules paths
      :: filter_Boolean directories.
Proof.
  intros Hall. unfold Storybook.modules. simpl. do 2 f_equal.
  destruct directories as [|d ds]; [reflexivity|].
  rewrite String_split_concat; [reflexivity | discriminate | assumption].
Qed.

Lemma modules_of_joined_directories_witness :
  Storybook.modules ":" sample_paths
    (String.concat ":" ["/lib"; EmptyString; "/opt/lib"]%string)
  = [ "node_modules"; "/app/node_modules"; "/lib"; "/opt/lib" ]%string.
Proof.
  refine (modules_of_joined_directories ":" sample_paths
            ["/lib"; EmptyString; "/opt/lib"]%string _).
  repeat constructor.
Defined.

(** ** The ignore pattern *)

(** X17. [/^\.\/locale$/] accepts the request [./locale] and nothing else. *)
Theorem locale_pattern_is_exact (request : string) :
  RegExp_test Storybook.re_locale request = true <-> request = "./locale"%string.
Proof.
  rewrite RegExp_test_spec. split.
  - intros (before & t & q & -> & H).
    inversion H as [| | | r1 r2 p q0 p' H1 H2 | | | | | |]; subst.
    inversion H1 as [| | | | | | | | s0 |]; subst.
    destruct before; [|discriminate].
    inversion H2 as [| | | r1 r2 p q1 p' H3 H4 | | | | | |]; subst.
    destruct q1 as [b1 t1].
    destruct (Matches_lit_inv "./locale" _ _ _ H3) as [-> _].
    destruct (Matches_AtEnd_inv _ _ H4) as [Ht1 _]. simpl in Ht1. now subst.
  - intros ->. exists EmptyString, "./locale"%string, (false, EmptyString).
    split; [reflexivity|].
    eapply MSeq; [apply MAtStart|].
    eapply MSeq; [apply (Matches_lit_intro "./locale" true EmptyString) | apply MAtEnd].
Qed.

Lemma typescript_handled_by_ts_loader_only_witness :
  Storybook.handlers sample_require_resolve sample_paths "/app/src/App.tsx"
  = [Storybook.ts_rule sample_require_resolve sample_paths]
  /\ Storybook.handlers sample_require_resolve sample_paths "/elsewhere/lib.ts" = [].
Proof.
  split.
  - exact (typescript_handled_by_ts_loader_only sample_require_resolve sample_paths
             "/app/src/App.tsx" (or_intror (ex_intro _ "/app/src/App"%string eq_refl))).
  - exact (typescript_handled_by_ts_loader_only sample_require_resolve sample_paths
             "/elsewhere/lib.ts" (or_introl (ex_intro _ "/elsewhere/lib"%string eq_refl))).
Defined.

Lemma javascript_handled_by_source_map_loader_only_witness :
  Storybook.handlers sample_require_resolve sample_paths "/app/src/index.js"
  = [Storybook.source_map_rule sample_require_resolve sample_paths].
Proof.
  exact (javascript_handled_by_source_map_loader_only sample_require_resolve sample_paths
           "/app/src/index.js" (ex_intro _ "/app/src/index"%string eq_refl)).
Defined.

Lemma images_handled_by_url_loader_only_witness :
  Storybook.handlers sample_require_resolve sample_paths "/app/src/photo.jpeg"
  = [Storybook.url_rule sample_require_resolve].
Proof.
  apply images_handled_by_url_loader_only.
  right. right. right. left. exists "/app/src/photo"%string. reflexivity.
Defined.

Lemma stylesheets_handled_by_exactly_one_rule_witness :
  Storybook.handlers sample_require_resolve sample_paths "/app/src/Button.module.css"
  = [Storybook.module_css_rule sample_require_resolve]
  /\ Storybook.handlers sample_require_resolve sample_paths "/app/src/index.scss"
     = [Storybook.scss_rule sample_require_resolve].
Proof.
  split.
  - exact (proj1 (stylesheets_handled_by_exactly_one_rule sample_require_resolve
                    sample_paths "/app/src/Button.module.css")
             (ex_intro _ "/app/src/Button.module"%string eq_refl)).
  - exact (proj2 (stylesheets_handled_by_exactly_one_rule sample_require_resolve
                    sample_paths "/app/src/index.scss")
             (ex_intro _ "/app/src/index"%string eq_refl)).
Defined.

Lemma html_json_jsx_handled_by_no_rule_witness :
  Storybook.handlers sample_require_resolve sample_paths "/app/src/View.jsx" = [].
Proof.
  apply html_json_jsx_handled_by_no_rule.
  right. right. exists "/app/src/View"%string. reflexivity.
Defined.

Lemma resolved_extensions_excluded_from_file_loader_witness :
  Storybook.rule_applies (Storybook.file_rule sample_require_resolve)
    "/app/package.json" = false.
Proof.
  apply (resolved_extensions_excluded_from_file_loader sample_require_resolve ".json").
  - simpl. tauto.
  - exists "/app/package"%string. reflexivity.
Defined.

Lemma sources_with_query_excluded_from_file_loader_witness :
  Storybook.rule_applies (Storybook.file_rule sample_require_resolve)
    ("webpack-dev-server/client" +:+ "." +:+ "js" +:+ "?" +:+ "http://localhost:9009")
  = false.
Proof.
  apply sources_with_query_excluded_from_file_loader.
  - simpl. tauto.
  - reflexivity.
Defined.

Lemma locale_pattern_is_exact_witness :
  RegExp_test Storybook.re_locale "./locale" = true.
Proof. apply locale_pattern_is_exact. reflexivity. Defined.

(** * Further properties of the transform *)

(** ** The shape of a key *)

Lemma hex_length (bs : list Z) : String.length (hex bs) = (2 * length bs)%nat.
Proof. induction bs as [|b bs IH]; simpl; [reflexivity | rewrite IH; lia]. Qed.

Lemma hex_digit_in_alphabet (d : Z) :
  In (hex_digit d) (list_ascii_of_string "0123456789abcdef").
Proof.
  unfold hex_digit. generalize (Z.to_nat d). intros n.
  do 16 (destruct n as [|n]; [simpl; tauto|]). simpl. tauto.
Qed.

Lemma hex_alphabet (bs : list Z) (c : ascii) :
  In c (list_ascii_of_string (hex bs)) ->
  In c (list_ascii_of_string "0123456789abcdef").
Proof.
  induction bs as [|b bs IH]; [contradiction|].
  change (list_ascii_of_string (hex (b :: bs)))
    with (hex_digit (b / 16) :: hex_digit (b mod 16) :: list_ascii_of_string (hex bs)).
  intros [<- | [<- | H]]; [apply hex_digit_in_alphabet .. | now apply IH].
Qed.

(** X1. Every key is a string of 32 characters, each a digit or a letter from
    [a] to [f]. *)
Theorem getCacheKey_is_32_hex_digits (tm : compiler) (w : World) (calls : list call)
    (fileData filePath configStr : string) (options : props) :
  exists key,
    fst (getCacheKey fileData filePath configStr options (state_after tm w calls))
    = Return key
    /\ String.length key = 32%nat
    /\ forall c, In c (list_ascii_of_string key) ->
                 In c (list_ascii_of_string "0123456789abcdef").
Proof.
  rewrite (getCacheKey_run _ _ _ _ _ _ (state_after_config tm w calls)).
  eexists. split; [reflexivity|]. split.
  - rewrite hex_length, md5_length. reflexivity.
  - apply hex_alphabet.
Qed.

(** ** The configuration is never falsy *)

(** X2. In every world, and after any calls, [compilerConfig] refers to a
    truthy value: the guard at load time keeps [null], [false], [0] and
    the empty string out. *)
Theorem compilerConfig_always_truthy (tm : compiler) (w : World) (calls : list call) :
  exists config,
    current_config (state_after tm w calls) = Some config
    /\ ToBoolean config = true.
Proof.
  exists (CompilerConfig w). split; [apply state_after_config|].
  unfold CompilerConfig.
  destruct (tsconfig_json w) as [[tsconfig|e]|]; try reflexivity.
  destruct (getProp tsconfig "compilerOptions") as [o|]; [|reflexivity].
  destruct (ToBoolean o) eqn:E; [exact E | reflexivity].
Qed.

(** ** The key covers what [process] reads *)

(** X3. Two calls whose key messages coincide get the same outcome from
    [process], at whatever time in the life of the process each is made,
    provided the file and the path are each the same in both or free of
    null bytes in both: reusing a cached output is then justified. *)
Theorem equal_key_messages_give_equal_outputs (tm : compiler) (w : World)
    (calls1 calls2 : list call) (src1 path1 configStr1 src2 path2 configStr2 : string)
    (config1 config2 : value) (options1 options2 : props) :
  separable src1 src2 -> separable path1 path2 ->
  cache_key_message (own_source w) (CompilerConfig w) src1 path1 configStr1
      (truthy (lookup_prop "instrument" options1))
  = cache_key_message (own_source w) (CompilerConfig w) src2 path2 configStr2
      (truthy (lookup_prop "instrument" options2)) ->
  fst (process tm src1 path1 config1 options1 (state_after tm w calls1))
  = fst (process tm src2 path2 config2 options2 (state_after tm w calls2)).
Proof.
  intros Hs Hp Hmsg.
  pose proof (cache_key_message_inj _ _ _ _ _ _ _ _ _ _ Hs Hp Hmsg) as Heq.
  injection Heq as -> -> -> Hi.
  destruct (endsWith path2 ".ts" || endsWith path2 ".tsx") eqn:Htest.
  - apply typescript_path_test in Htest.
    rewrite !(process_outcome tm _ _ _ _ _ _ (state_after_config tm w _) Htest).
    now rewrite Hi.
  - now rewrite !(process_passthrough tm _ _ _ _ _ Htest).
Qed.

Lemma equal_key_messages_give_equal_outputs_witness :
  fst (process sample_compiler "x" "a.ts" VNull [("instrument"%string, VBool true)]
         (state_after sample_compiler sample_world []))
  = fst (process sample_compiler "x" "a.ts" (VStr "other")
           [("instrument"%string, VNum 1); ("watch"%string, VBool true)]
           (state_after sample_compiler sample_world
              [CallProcess "y" "b.tsx" VNull [("instrument"%string, VBool true)]])).
Proof.
  apply (equal_key_messages_give_equal_outputs sample_compiler sample_world
           [] [CallProcess "y" "b.tsx" VNull [("instrument"%string, VBool true)]]
           "x" "a.ts" "{}" "x" "a.ts" "{}").
  - left. reflexivity.
  - left. reflexivity.
  - reflexivity.
Defined.

(** ** The key follows the transform and the configuration *)

(** X4. With the four arguments held fixed, a change of the transform's own
    file, or of the JSON text of the configuration, changes the hashed
    message; the keys are then equal only if MD5 gives the two messages
    the same digest. *)
Theorem getCacheKey_follows_module_state (tm : compiler) (w1 w2 : World)
    (calls1 calls2 : list call) (fileData filePath configStr : string)
    (options : props) :
  (own_source w1 <> own_source w2 /\ CompilerConfig w1 = CompilerConfig w2)
  \/ (own_source w1 = own_source w2
      /\ JSON_stringify (CompilerConfig w1) <> JSON_stringify (CompilerConfig w2)) ->
  cache_key_message (own_source w1) (CompilerConfig w1) fileData filePath configStr
      (truthy (lookup_prop "instrument" options))
    <> cache_key_message (own_source w2) (CompilerConfig w2) fileData filePath configStr
         (truthy (lookup_prop "instrument" options))
  /\ (fst (getCacheKey fileData filePath configStr options (state_after tm w1 calls1))
      = fst (getCacheKey fileData filePath configStr options (state_after tm w2 calls2)) ->
      MD5.md5 (cache_key_message (own_source w1) (CompilerConfig w1)
                 fileData filePath configStr (truthy (lookup_prop "instrument" options)))
      = MD5.md5 (cache_key_message (own_source w2) (CompilerConfig w2)
                   fileData filePath configStr
                   (truthy (lookup_prop "instrument" options)))).
Proof.
  intros Hdiff. split.
  - unfold cache_key_message, join_nul. intros Heq.
    destruct Hdiff as [[Hsrc Hcfg] | [Hsrc Hjson]].
    + rewrite Hcfg in Heq. apply app_inv_tail in Heq. contradiction.
    + rewrite Hsrc in Heq. apply app_inv_head in Heq. injection Heq as Heq.
      apply app_inv_head in Heq. injection Heq as Heq.
      apply app_inv_head in Heq. injection Heq as Heq.
      apply app_inv_head in Heq. injection Heq as Heq.
      apply app_inv_tail in Heq. apply utf8_inj in Heq. contradiction.
  - rewrite (getCacheKey_run _ _ _ _ _ _ (state_after_config tm w1 calls1)).
    rewrite (getCacheKey_run _ _ _ _ _ _ (state_after_config tm w2 calls2)).
    rewrite !state_after_THIS_FILE. cbn [fst]. intros Heq.
    apply hex_inj; [apply MD5Facts.md5_range .. | congruence].
Qed.

Lemma getCacheKey_follows_module_state_witness :
  cache_key_message (own_source sample_world) (CompilerConfig sample_world)
      "x" "a.ts" "{}" false
    <> cache_key_message (own_source bare_world) (CompilerConfig bare_world)
         "x" "a.ts" "{}" false.
Proof.
  apply (getCacheKey_follows_module_state sample_compiler sample_world bare_world
           [] [] "x" "a.ts" "{}" []).
  right. split; [reflexivity | discriminate].
Defined.

(** ** Coverage runs and [sourceMap] *)

Lemma set_prop_absent k v (ps : props) :
  ~ In k (map fst ps) -> set_prop k v ps = ps ++ [(k, v)].
Proof.
  induction ps as [|[k' v'] ps IH]; simpl; intros H; [reflexivity|].
  destruct (String.eqb k k') eqn:E.
  - apply String.eqb_eq in E. subst. tauto.
  - f_equal. apply IH. tauto.
Qed.

Lemma assign_fresh_keys (source target : props) :
  List.NoDup (map fst target ++ map fst source) ->
  fold_left
    (fun acc kv => if String.eqb (fst kv) "__proto__" then acc
                   else set_prop (fst kv) (snd kv) acc)
    source target
  = target ++ List.filter not_proto source.
Proof.
  revert target. induction source as [|[k v] source IH]; intros target Hnd; simpl.
  - now rewrite app_nil_r.
  - unfold not_proto at 1. simpl.
    destruct (String.eqb k "__proto__") eqn:E; simpl.
    + apply IH. apply NoDup_remove_1 in Hnd. exact Hnd.
    + rewrite set_prop_absent.
      * rewrite IH; [now rewrite <- app_assoc|].
        rewrite map_app. simpl. rewrite <- app_assoc. exact Hnd.
      * apply NoDup_remove_2 in Hnd. intros Hin. apply Hnd.
        apply in_or_app. now left.
Qed.

Lemma Object_assign_copy (ps : props) :
  List.NoDup (map fst ps) ->
  Object_assign [] (VObj ps) = List.filter not_proto ps.
Proof. intros Hnd. unfold Object_assign. simpl. now rewrite assign_fresh_keys. Qed.

Lemma NoDup_snoc (l : list string) (k : string) :
  List.NoDup l -> ~ In k l -> List.NoDup (l ++ [k]).
Proof.
  induction 1 as [|x l Hx Hl IH]; intros Hk; simpl.
  - repeat constructor. simpl. tauto.
  - constructor.
    + intros Hin. apply in_app_or in Hin as [Hin | [<- | []]]; [contradiction|].
      apply Hk. now left.
    + apply IH. intros Hin. apply Hk. now right.
Qed.

Lemma set_prop_keys_NoDup k v (ps : props) :
  List.NoDup (map fst ps) -> List.NoDup (map fst (set_prop k v ps)).
Proof.
  intros Hnd. destruct (in_dec string_dec k (map fst ps)) as [Hin | Hout].
  - assert (Hkeys : map fst (set_prop k v ps) = map fst ps); [|now rewrite Hkeys].
    clear Hnd. induction ps as [|[k' v'] ps IH]; [contradiction|]. simpl.
    destruct (String.eqb k k') eqn:E.
    + apply String.eqb_eq in E. now subst.
    + simpl. f_equal. apply IH. destruct Hin as [Heq | Hin]; [|exact Hin].
      simpl in Heq. subst. now rewrite String.eqb_refl in E.
  - rewrite set_prop_absent by assumption. rewrite map_app. simpl.
    now apply NoDup_snoc.
Qed.

Lemma delete_after_set k v (keep : string * value -> bool) (ps : props) :
  delete_prop k (List.filter keep (set_prop k v ps))
  = delete_prop k (List.filter keep ps).
Proof.
  induction ps as [|[k' v'] ps IH]; simpl.
  - destruct (keep (k, v)); simpl; [now rewrite String.eqb_refl | reflexivity].
  - destruct (String.eqb k k') eqn:E.
    + apply String.eqb_eq in E. subst k'. simpl.
      destruct (keep (k, v)), (keep (k, v')); simpl; rewrite ?String.eqb_refl; reflexivity.
    + simpl. destruct (keep (k', v')); simpl; rewrite ?E, IH; reflexivity.
Qed.

Lemma delete_prop_filter k (keep : string * value -> bool) (ps : props) :
  delete_prop k (List.filter keep ps) = List.filter keep (delete_prop k ps).
Proof.
  induction ps as [|[k' v'] ps IH]; simpl; [reflexivity|].
  destruct (keep (k', v')) eqn:Hkeep, (String.eqb k k') eqn:E; simpl;
    rewrite ?E, ?Hkeep, IH; reflexivity.
Qed.

Lemma Object_assign_fresh (config : value) :
  distinct_names config ->
  Object_assign [] config = List.filter not_proto (ownEnumerable config).
Proof.
  intros Hnd. unfold Object_assign.
  rewrite assign_fresh_keys; [reflexivity|].
  simpl. now apply ownEnumerable_distinct.
Qed.

(** X5. In a coverage run the project's [sourceMap] setting has no effect:
    two configurations whose own properties are the same once [sourceMap]
    is left out of both, wherever it stands in either and whether or not
    both have it, give the same outcome on every file. *)
Theorem coverage_run_ignores_sourceMap (tm : compiler) (w1 w2 : World)
    (calls1 calls2 : list call)
    (src path : string) (config : value) (options : props) :
  distinct_names (CompilerConfig w1) ->
  distinct_names (CompilerConfig w2) ->
  delete_prop "sourceMap" (ownEnumerable (CompilerConfig w1))
  = delete_prop "sourceMap" (ownEnumerable (CompilerConfig w2)) ->
  truthy (lookup_prop "instrument" options) = true ->
  fst (process tm src path config options (state_after tm w1 calls1))
  = fst (process tm src path config options (state_after tm w2 calls2)).
Proof.
  intros Hnd1 Hnd2 Hsame Hinstr.
  destruct (endsWith path ".ts" || endsWith path ".tsx") eqn:Htest.
  - apply typescript_path_test in Htest.
    rewrite !(process_outcome tm _ _ _ _ _ _ (state_after_config tm _ _) Htest).
    rewrite Hinstr. unfold effective_config.
    rewrite !Object_assign_fresh by assumption.
    now rewrite !delete_prop_filter, Hsame.
  - now rewrite !(process_passthrough tm _ _ _ _ _ Htest).
Qed.

Lemma coverage_run_ignores_sourceMap_witness :
  fst (process sample_compiler "x" "a.ts" VNull [("instrument"%string, VBool true)]
         (state_after sample_compiler
            {| own_source := sample_source;
               tsconfig_json := Some (Return (VObj [("compilerOptions"%string,
                 VObj [("sourceMap"%string, VBool false);
                       ("target"%string, VStr "es5")])])) |} []))
  = fst (process sample_compiler "x" "a.ts" VNull [("instrument"%string, VBool true)]
           (state_after sample_compiler
              {| own_source := sample_source;
                 tsconfig_json := Some (Return (VObj [("compilerOptions"%string,
                   VObj [("target"%string, VStr "es5");
                         ("sourceMap"%string, VBool true)])])) |} [])).
Proof.
  apply (coverage_run_ignores_sourceMap sample_compiler
           {| own_source := sample_source;
              tsconfig_json := Some (Return (VObj [("compilerOptions"%string,
                VObj [("sourceMap"%string, VBool false);
                      ("target"%string, VStr "es5")])])) |}
           {| own_source := sample_source;
              tsconfig_json := Some (Return (VObj [("compilerOptions"%string,
                VObj [("target"%string, VStr "es5");
                      ("sourceMap"%string, VBool true)])])) |} [] []).
  - simpl. repeat constructor; simpl; intuition discriminate.
  - simpl. repeat constructor; simpl; intuition discriminate.
  - reflexivity.
  - reflexivity.
Defined.
